(** * The metrics gateway (app.py): a shallow embedding and its properties

    The program is a Flask application of four routes.  Three of them hand
    the contents of a JSON file under [BASE_DIR/results/logs] to [jsonify];
    the fourth renders a template.  The application code is embedded
    function by function ([load_json], [index], [serial_metrics],
    [parallel_metrics], [compare_metrics]).  What it calls in the Python
    runtime ([os.path], [open], [json.load]) and in Flask ([jsonify],
    [render_template], routing, the handling of an exception that leaves a
    view) is modelled beside it, each piece under the name it has there:
    CPython's json module, posixpath, and Flask with its default JSON
    provider (Flask 2.2 and later) and Jinja's file system loader. *)

From Stdlib Require Import ZArith NArith List Ascii String Bool Lia.
From Stdlib Require Import DecimalFacts DecimalPos DecimalN DecimalZ.
From stdpp Require Import gmap strings list.

#[global] Set Warnings "-clear-no-such-hyp".

Local Open Scope N_scope.

(** ** Python values *)

(** A Python [str] is a sequence of code points; a character is its code
    point. *)
Abbreviation char := N (only parsing).
Abbreviation text := (list N) (only parsing).

Definition ch (a : ascii) : N := N_of_ascii a.

(** The [str] whose characters are those of an ASCII literal. *)
Definition T (s : string) : list N := map ch (list_ascii_of_string s).

Definition quote : N := 34.
Definition backslash : N := 92.
Definition newline : N := 10.

(** A Python [float] is a binary64 number.  A finite one is named here by
    what [float.__repr__] writes for it, the shortest decimal that [float()]
    reads back as the same number: its sign, its significant decimal digits
    (the characters [0]..[9], no leading and no trailing zero, or the single
    digit [0]) and the position of the decimal point relative to the first
    digit.  [Json.float_of_decimal] is the conversion of [float()]: the
    binary64 number nearest to a decimal, under this name. *)
Inductive pyfloat :=
| FNaN
| FInf (neg : bool)
| FFinite (neg : bool) (digits : list N) (decpt : Z).

#[global] Instance pyfloat_eq_dec : EqDecision pyfloat.
Proof. solve_decision. Defined.

#[warnings="-register-all"]
Inductive pyvalue :=
| PyNone
| PyBool (b : bool)
| PyInt (z : Z)
| PyFloat (f : pyfloat)
| PyStr (s : list N)
| PyList (l : list pyvalue)
| PyDict (d : list (list N * pyvalue)).

(** Exceptions that the calls of app.py can raise. *)
Inductive exn :=
| FileNotFoundError
| IsADirectoryError
| PermissionError
| UnicodeDecodeError
| JSONDecodeError
| ValueError
| RecursionError
| TemplateNotFound (name : string)
| TemplateSyntaxError.

(** A call returns or raises. *)
Inductive result (A : Type) :=
| Return (a : A)
| Raise (e : exn).
Arguments Return {A} a.
Arguments Raise {A} e.

(** ** The json module *)

Module Json.

(** *** Decoding: json.loads

    The decoder is CPython's [json.decoder] / [json.scanner] with the
    default hooks: RFC 8259 JSON, strict strings, and the three constants
    [NaN], [Infinity], [-Infinity].  It is written as a tokenizer followed by
    a parser of the token list; both use a fuel that the entry point
    [loads] sets from the length of its input.  The tokenizer stops where the
    scanner would: at a character that starts no token, and at an integer of
    more digits than [int()] converts; the parser decides whether the scanner
    gets that far, and with which exception.  The message and the position
    of a [JSONDecodeError] are not modelled. *)

Definition is_ws (c : N) : bool :=
  (c =? 32) || (c =? 9) || (c =? 10) || (c =? 13).

Fixpoint skip_ws (s : list N) : list N :=
  match s with
  | c :: r => if is_ws c then skip_ws r else s
  | [] => []
  end.

Definition is_digit (c : N) : bool := (48 <=? c) && (c <=? 57).

Fixpoint span_digits (s : list N) : list N * list N :=
  match s with
  | c :: r =>
      if is_digit c then let '(ds, r') := span_digits r in (c :: ds, r')
      else ([], s)
  | [] => ([], [])
  end.

Fixpoint starts_with (p s : list N) : bool :=
  match p, s with
  | [], _ => true
  | a :: p', b :: s' => (a =? b) && starts_with p' s'
  | _ :: _, [] => false
  end.

(** Decimal digits as the Standard Library's [Decimal.uint]. *)
Fixpoint uint_of_digits (ds : list N) : Decimal.uint :=
  match ds with
  | [] => Decimal.Nil
  | c :: r =>
      let u := uint_of_digits r in
      match c - 48 with
      | 0 => Decimal.D0 u | 1 => Decimal.D1 u | 2 => Decimal.D2 u
      | 3 => Decimal.D3 u | 4 => Decimal.D4 u | 5 => Decimal.D5 u
      | 6 => Decimal.D6 u | 7 => Decimal.D7 u | 8 => Decimal.D8 u
      | _ => Decimal.D9 u
      end
  end.

Fixpoint digits_of_uint (u : Decimal.uint) : list N :=
  match u with
  | Decimal.Nil => []
  | Decimal.D0 r => 48 :: digits_of_uint r
  | Decimal.D1 r => 49 :: digits_of_uint r
  | Decimal.D2 r => 50 :: digits_of_uint r
  | Decimal.D3 r => 51 :: digits_of_uint r
  | Decimal.D4 r => 52 :: digits_of_uint r
  | Decimal.D5 r => 53 :: digits_of_uint r
  | Decimal.D6 r => 54 :: digits_of_uint r
  | Decimal.D7 r => 55 :: digits_of_uint r
  | Decimal.D8 r => 56 :: digits_of_uint r
  | Decimal.D9 r => 57 :: digits_of_uint r
  end.

(** [int(text)] on a string of decimal digits. *)
Definition nat_of_digits (ds : list N) : N := N.of_uint (uint_of_digits ds).

Definition int_of_lexeme (neg : bool) (ds : list N) : Z :=
  let n := Z.of_N (nat_of_digits ds) in
  if neg then (- n)%Z else n.

Fixpoint drop_zeros (ds : list N) : nat * list N :=
  match ds with
  | c :: r =>
      if c =? 48 then let '(k, r') := drop_zeros r in (S k, r') else (O, ds)
  | [] => (O, [])
  end.

Definition strip_trailing_zeros (ds : list N) : list N :=
  rev (snd (drop_zeros (rev ds))).

(** *** binary64: [float()] and [repr]

    A positive finite binary64 number is [m * 2^e] with [0 < m < 2^53] and
    [-1074 <= e <= 971], and [2^52 <= m] unless [e = -1074] (a subnormal
    number). *)
Inductive binary64 :=
| B64_zero
| B64_inf
| B64_finite (m e : Z).

Definition binary64_eqb (a b : binary64) : bool :=
  match a, b with
  | B64_zero, B64_zero | B64_inf, B64_inf => true
  | B64_finite m e, B64_finite m' e' => ((m =? m') && (e =? e'))%Z
  | _, _ => false
  end.

(** The decimal [d * 10^x] as a fraction of two positive integers. *)
Definition fraction (d x : Z) : Z * Z :=
  if (0 <=? x)%Z then (d * 10 ^ x, 1)%Z else (d, 10 ^ (- x))%Z.

(** The number of decimal digits of a positive integer. *)
Definition ndigits (n : Z) : Z :=
  Z.of_nat (length (digits_of_uint (N.to_uint (Z.to_N n)))).

(** The integer part of the logarithm of [num / den] in base 2 and in base
    10, for positive [num] and [den]. *)
Definition floor_log2 (num den : Z) : Z :=
  let a := (Z.log2 num - Z.log2 den)%Z in
  if (if 0 <=? a then den * 2 ^ a <=? num else den <=? num * 2 ^ (- a))%Z
  then a else (a - 1)%Z.

Definition floor_log10 (num den : Z) : Z :=
  let a := (ndigits num - ndigits den)%Z in
  if (if 0 <=? a then den * 10 ^ a <=? num else den <=? num * 10 ^ (- a))%Z
  then a else (a - 1)%Z.

(** [num / den] divided by a power of a base, as a fraction. *)
Definition scale (base num den k : Z) : Z * Z :=
  if (0 <=? k)%Z then (num, den * base ^ k)%Z else (num * base ^ (- k), den)%Z.

(** The integer nearest to [num / den], the even one of two that are
    equally near. *)
Definition round_half_even (num den : Z) : Z :=
  let q := (num / den)%Z in
  let r := (num mod den)%Z in
  if (2 * r <? den)%Z then q
  else if (den <? 2 * r)%Z then (q + 1)%Z
  else if Z.even q then q else (q + 1)%Z.

(** The binary64 number nearest to the positive fraction [num / den],
    ties to even: correct rounding, as [float()] does it ([strtod]); beyond the
    largest finite number it is infinite, below half of the smallest it is
    zero. *)
Definition nearest_binary64 (num den : Z) : binary64 :=
  let e := Z.max (floor_log2 num den - 52) (-1074) in
  let '(n, d) := scale 2 num den e in
  let m := round_half_even n d in
  if (m =? 0)%Z then B64_zero
  else
    let '(m, e) := if (m =? 2 ^ 53)%Z then (2 ^ 52, e + 1)%Z else (m, e) in
    if (971 <? e)%Z then B64_inf else B64_finite m e.

(** The digits of [repr] for the positive finite number [m * 2^e]: the
    decimal [c * 10^s] with the fewest digits that [float()] reads back as the
    same number, and of those with as few digits the nearest ([dtoa], mode 0).
    The decimals of [n] digits next to the number, below and above it, are
    tried for [n = 1, 2, ...]; seventeen digits always suffice. *)
Fixpoint shortest_decimal (fuel : nat) (n : Z) (m e k : Z) : Z * Z :=
  let '(num, den) := scale 2 m 1 (- e) in
  let s := (k - n + 1)%Z in
  let '(a, b) := scale 10 num den s in
  match fuel with
  | O => (round_half_even a b, s)
  | S fuel =>
      let lo := (a / b)%Z in
      let hi := (lo + 1)%Z in
      let r := (a mod b)%Z in
      let reads_back c :=
        let '(cn, cd) := fraction c s in
        binary64_eqb (nearest_binary64 cn cd) (B64_finite m e) in
      match reads_back lo, reads_back hi with
      | true, true =>
          if (2 * r <? b)%Z then (lo, s)
          else if (b <? 2 * r)%Z then (hi, s)
          else if Z.even lo then (lo, s) else (hi, s)
      | true, false => (lo, s)
      | false, true => if (r =? 0)%Z then shortest_decimal fuel (n + 1) m e k else (hi, s)
      | false, false => shortest_decimal fuel (n + 1) m e k
      end
  end.

Definition dtoa (m e : Z) : Z * Z :=
  let '(num, den) := scale 2 m 1 (- e) in
  shortest_decimal 16 1 m e (floor_log10 num den).

(** [float()] of the decimal [0.ds * 10^decpt], whose first digit is not
    zero, under the name that [repr] gives to the result.  A decimal with the
    point more than 400 places away from its first digit is beyond the
    range of binary64 whatever its digits. *)
Definition float_of_decimal (neg : bool) (ds : list N) (decpt : Z) : pyfloat :=
  if (400 <? decpt)%Z then FInf neg
  else if (decpt <? -400)%Z then FFinite neg [48] 1
  else
    let '(num, den) :=
      fraction (Z.of_N (nat_of_digits ds)) (decpt - Z.of_nat (length ds)) in
    match nearest_binary64 num den with
    | B64_zero => FFinite neg [48] 1
    | B64_inf => FInf neg
    | B64_finite m e =>
        let '(c, s) := dtoa m e in
        let all := digits_of_uint (N.to_uint (Z.to_N c)) in
        match strip_trailing_zeros all with
        | [] => FFinite neg [48] 1
        | ds' => FFinite neg ds' (Z.of_nat (length all) + s)
        end
    end.

(** [float(text)] on the lexeme [ipart frac? exp?]. *)
Definition float_of_lexeme (neg : bool) (ipart frac : list N) (e : Z) : pyfloat :=
  let '(k, ds) := drop_zeros (ipart ++ frac) in
  match strip_trailing_zeros ds with
  | [] => FFinite neg [48] 1
  | ds' => float_of_decimal neg ds' (Z.of_nat (length ipart) + e - Z.of_nat k)
  end.

(** NUMBER_RE matched at the head of a text, group by group: an optional
    minus sign, then a zero or a nonzero digit with any digits after it;
    optionally a point with at least one digit; optionally e or E, an optional
    sign and at least one digit. *)
Definition scan_sign (s : list N) : bool * list N :=
  match s with
  | c :: r => if c =? ch "-" then (true, r) else (false, s)
  | [] => (false, s)
  end.

Definition scan_int (s : list N) : option (list N * list N) :=
  match s with
  | [] => None
  | d :: r =>
      if negb (is_digit d) then None
      else if d =? 48 then Some ([d], r)
      else let '(ds, r') := span_digits r in Some (d :: ds, r')
  end.

Definition scan_frac (s : list N) : list N * list N :=
  match s with
  | p :: r =>
      if p =? ch "." then
        match span_digits r with
        | ([], _) => ([], s)
        | (ds, r') => (ds, r')
        end
      else ([], s)
  | [] => ([], s)
  end.

Definition scan_exp (s : list N) : option Z * list N :=
  match s with
  | e :: r =>
      if (e =? ch "e") || (e =? ch "E") then
        let '(eneg, r1) :=
          match r with
          | c :: r' =>
              if c =? ch "-" then (true, r')
              else if c =? ch "+" then (false, r')
              else (false, r)
          | [] => (false, r)
          end in
        match span_digits r1 with
        | ([], _) => (None, s)
        | (ds, r') => (Some (int_of_lexeme eneg ds), r')
        end
      else (None, s)
  | [] => (None, s)
  end.

(** The value of the match and what follows it: an [int] when neither
    fraction nor exponent is there, a [float] otherwise. *)
Definition scan_number (s : list N) : option (pyvalue * list N) :=
  let '(neg, s1) := scan_sign s in
  match scan_int s1 with
  | None => None
  | Some (ipart, s2) =>
      let '(frac, s3) := scan_frac s2 in
      let '(exp, s4) := scan_exp s3 in
      match frac, exp with
      | [], None => Some (PyInt (int_of_lexeme neg ipart), s4)
      | _, None => Some (PyFloat (float_of_lexeme neg ipart frac 0), s4)
      | _, Some e => Some (PyFloat (float_of_lexeme neg ipart frac e), s4)
      end
  end.

Definition hex_value (c : N) : option N :=
  if is_digit c then Some (c - 48)
  else if (97 <=? c) && (c <=? 102) then Some (c - 87)
  else if (65 <=? c) && (c <=? 70) then Some (c - 55)
  else None.

(** The four hexadecimal digits of a [\uXXXX] escape. *)
Definition decode_uXXXX (s : list N) : option (N * list N) :=
  match s with
  | a :: b :: c :: d :: r =>
      match hex_value a, hex_value b, hex_value c, hex_value d with
      | Some x, Some y, Some z, Some w =>
          Some (((x * 16 + y) * 16 + z) * 16 + w, r)
      | _, _, _, _ => None
      end
  | _ => None
  end.

Definition is_high_surrogate (c : N) : bool := (55296 <=? c) && (c <=? 56319).
Definition is_low_surrogate (c : N) : bool := (56320 <=? c) && (c <=? 57343).

Definition join_surrogates (hi lo : N) : N :=
  65536 + ((hi - 55296) * 1024 + (lo - 56320)).

(** The one-character escapes (BACKSLASH in json.decoder). *)
Definition unescape (c : N) : option N :=
  if c =? quote then Some quote
  else if c =? backslash then Some backslash
  else if c =? ch "/" then Some (ch "/")
  else if c =? ch "b" then Some 8
  else if c =? ch "f" then Some 12
  else if c =? ch "n" then Some 10
  else if c =? ch "r" then Some 13
  else if c =? ch "t" then Some 9
  else None.

(** scanstring, strict: from the character after the opening quote to the
    closing one; the decoded string and what follows it. *)
Fixpoint scanstring (fuel : nat) (s : list N) : option (list N * list N) :=
  match fuel with
  | O => None
  | S fuel =>
      match s with
      | [] => None
      | c :: r =>
          if c =? quote then Some ([], r)
          else if c =? backslash then
            match r with
            | [] => None
            | e :: r1 =>
                if e =? ch "u" then
                  match decode_uXXXX r1 with
                  | None => None
                  | Some (uni, r2) =>
                      let paired :=
                        if is_high_surrogate uni && starts_with [backslash; ch "u"] r2 then
                          match decode_uXXXX (drop 2 r2) with
                          | None => None
                          | Some (uni2, r3) =>
                              if is_low_surrogate uni2
                              then Some (join_surrogates uni uni2, r3)
                              else Some (uni, r2)
                          end
                        else Some (uni, r2) in
                      match paired with
                      | None => None
                      | Some (cp, r') =>
                          match scanstring fuel r' with
                          | Some (str, rest) => Some (cp :: str, rest)
                          | None => None
                          end
                      end
                  end
                else
                  match unescape e with
                  | None => None
                  | Some cp =>
                      match scanstring fuel r1 with
                      | Some (str, rest) => Some (cp :: str, rest)
                      | None => None
                      end
                  end
            end
          else if c <? 32 then None
          else
            match scanstring fuel r with
            | Some (str, rest) => Some (c :: str, rest)
            | None => None
            end
      end
  end.

Inductive token :=
| TLBrace | TRBrace | TLBracket | TRBracket | TComma | TColon
| TAtom (v : pyvalue)
| TOverlong
| TJunk.

(** [sys.int_info.default_max_str_digits]: [int()] raises [ValueError] on
    a text of more digits (CPython 3.11). *)
Definition int_max_str_digits : Z := 4300.

(** The integers that [int()] does not convert.  An integer of JSON has no
    leading zero, so that its digits are those of its value. *)
Definition overlong (v : pyvalue) : bool :=
  match v with
  | PyInt z => (int_max_str_digits <? ndigits (Z.abs z))%Z
  | _ => false
  end.

(** The token at the head of a text and what follows it, in the order
    of the alternatives of [scanner.py]'s [_scan_once]: string, brackets,
    [null], [true], [false], a number, [NaN], [Infinity], [-Infinity].
    [TOverlong] stands for an integer that [int()] refuses. *)
Definition scan_once (c : N) (r : list N) : option (token * list N) :=
  if c =? quote then
    match scanstring (S (length r)) r with
    | Some (str, rest) => Some (TAtom (PyStr str), rest)
    | None => None
    end
  else if c =? ch "{" then Some (TLBrace, r)
  else if c =? ch "}" then Some (TRBrace, r)
  else if c =? ch "[" then Some (TLBracket, r)
  else if c =? ch "]" then Some (TRBracket, r)
  else if c =? ch "," then Some (TComma, r)
  else if c =? ch ":" then Some (TColon, r)
  else if starts_with (T "null") (c :: r) then Some (TAtom PyNone, drop 3 r)
  else if starts_with (T "true") (c :: r) then Some (TAtom (PyBool true), drop 3 r)
  else if starts_with (T "false") (c :: r) then Some (TAtom (PyBool false), drop 4 r)
  else
    match scan_number (c :: r) with
    | Some (v, rest) => Some (if overlong v then TOverlong else TAtom v, rest)
    | None =>
        if starts_with (T "NaN") (c :: r) then Some (TAtom (PyFloat FNaN), drop 2 r)
        else if starts_with (T "Infinity") (c :: r) then
          Some (TAtom (PyFloat (FInf false)), drop 7 r)
        else if starts_with (T "-Infinity") (c :: r) then
          Some (TAtom (PyFloat (FInf true)), drop 8 r)
        else None
    end.

(** The tokens that end the token list: the decoder reads no further. *)
Definition last_token (t : token) : bool :=
  match t with
  | TOverlong | TJunk => true
  | _ => false
  end.

(** The tokens of a text: whitespace, a token, and so on to the end of the
    text, or to the first place where the scanner finds no token ([TJunk]) or
    an integer that it does not convert. *)
Fixpoint lex (fuel : nat) (s : list N) : option (list token) :=
  match fuel with
  | O => None
  | S fuel =>
      match skip_ws s with
      | [] => Some []
      | c :: r =>
          match scan_once c r with
          | Some (t, rest) =>
              if last_token t then Some [t]
              else
                match lex fuel rest with
                | Some ts => Some (t :: ts)
                | None => None
                end
          | None => Some [TJunk]
          end
      end
  end.

Definition text_eqb (a b : list N) : bool := bool_decide (a = b).

(** [d[k] = v] on a dict kept as its items in insertion order: a key
    already present keeps its place and takes the new value. *)
Fixpoint dict_set {A} (d : list (list N * A)) (k : list N) (v : A) : list (list N * A) :=
  match d with
  | [] => [(k, v)]
  | (k', v') :: r => if text_eqb k' k then (k, v) :: r else (k', v') :: dict_set r k v
  end.

(** [dict(pairs)]. *)
Definition dict_of_pairs {A} (pairs : list (list N * A)) : list (list N * A) :=
  fold_left (fun d kv => dict_set d (fst kv) (snd kv)) pairs [].

(** [sys.getrecursionlimit()]: the scanner enters one recursive call for
    every array and object that it opens, and raises [RecursionError] when
    the limit is reached.  The frames of the server, of Flask and of the view
    that are on the stack when [json.load] is called take some dozens of this
    budget in the running program; they are not counted here. *)
Definition recursion_limit : N := 1000.

(** JSONArray, JSONObject and [_scan_once] on the token list; [depth] is
    the number of arrays and objects that are open. *)
Fixpoint parse_value (fuel : nat) (depth : N) (ts : list token)
  : result (pyvalue * list token) :=
  match fuel with
  | O => Raise JSONDecodeError
  | S fuel =>
      match ts with
      | TAtom v :: r => Return (v, r)
      | TOverlong :: _ => Raise ValueError
      | TLBracket :: r =>
          if recursion_limit <=? depth then Raise RecursionError
          else
            match r with
            | TRBracket :: r' => Return (PyList [], r')
            | _ =>
                match parse_elements fuel (depth + 1) r with
                | Return (l, r') => Return (PyList l, r')
                | Raise e => Raise e
                end
            end
      | TLBrace :: r =>
          if recursion_limit <=? depth then Raise RecursionError
          else
            match r with
            | TRBrace :: r' => Return (PyDict [], r')
            | _ =>
                match parse_members fuel (depth + 1) r with
                | Return (ps, r') => Return (PyDict (dict_of_pairs ps), r')
                | Raise e => Raise e
                end
            end
      | _ => Raise JSONDecodeError
      end
  end
with parse_elements (fuel : nat) (depth : N) (ts : list token)
  : result (list pyvalue * list token) :=
  match fuel with
  | O => Raise JSONDecodeError
  | S fuel =>
      match parse_value fuel depth ts with
      | Return (v, TComma :: r) =>
          match parse_elements fuel depth r with
          | Return (l, r') => Return (v :: l, r')
          | Raise e => Raise e
          end
      | Return (v, TRBracket :: r) => Return ([v], r)
      | Return _ => Raise JSONDecodeError
      | Raise e => Raise e
      end
  end
with parse_members (fuel : nat) (depth : N) (ts : list token)
  : result (list (list N * pyvalue) * list token) :=
  match fuel with
  | O => Raise JSONDecodeError
  | S fuel =>
      match ts with
      | TAtom (PyStr k) :: TColon :: r =>
          match parse_value fuel depth r with
          | Return (v, TComma :: r') =>
              match parse_members fuel depth r' with
              | Return (ps, r'') => Return ((k, v) :: ps, r'')
              | Raise e => Raise e
              end
          | Return (v, TRBrace :: r') => Return ([(k, v)], r')
          | Return _ => Raise JSONDecodeError
          | Raise e => Raise e
          end
      | _ => Raise JSONDecodeError
      end
  end.

Definition BOM : N := 65279.

(** [json.loads(s)] for a [str]: a value and nothing but whitespace after
    it. *)
Definition loads (s : list N) : result pyvalue :=
  if starts_with [BOM] s then Raise JSONDecodeError
  else
    match lex (S (length s)) s with
    | None => Raise JSONDecodeError
    | Some ts =>
        match parse_value (S (2 * length ts)) 0 ts with
        | Return (v, []) => Return v
        | Return (_, _ :: _) => Raise JSONDecodeError
        | Raise e => Raise e
        end
    end.


(** *** Encoding: json.dumps as Flask's JSON provider calls it

    [sort_keys=True] and [ensure_ascii=True] always; [indent] is [None] with
    the separators [(",", ":")], or a number of spaces with the separators
    [(",", ": ")]. *)

Module Encoder.

Definition hex_digit (n : N) : N := if n <? 10 then 48 + n else 87 + n.

(** Four lowercase hexadecimal digits ([{0:04x}]). *)
Definition hex4 (n : N) : list N :=
  [hex_digit (n / 4096 mod 16); hex_digit (n / 256 mod 16);
   hex_digit (n / 16 mod 16); hex_digit (n mod 16)].

(** The replacement of one character in [py_encode_basestring_ascii]. *)
Definition escape_char (c : N) : list N :=
  if c =? quote then [backslash; quote]
  else if c =? backslash then [backslash; backslash]
  else if c =? 10 then [backslash; ch "n"]
  else if c =? 13 then [backslash; ch "r"]
  else if c =? 9 then [backslash; ch "t"]
  else if c =? 12 then [backslash; ch "f"]
  else if c =? 8 then [backslash; ch "b"]
  else if (32 <=? c) && (c <=? 126) then [c]
  else if c <? 65536 then backslash :: ch "u" :: hex4 c
  else
    let v := c - 65536 in
    backslash :: ch "u" :: hex4 (55296 + (v / 1024) mod 1024)
      ++ backslash :: ch "u" :: hex4 (56320 + v mod 1024).

Definition encode_basestring_ascii (s : list N) : list N :=
  quote :: concat (map escape_char s) ++ [quote].

(** [int.__repr__]. *)
Definition int_repr (z : Z) : list N :=
  match z with
  | Zneg p => ch "-" :: digits_of_uint (N.to_uint (Npos p))
  | _ => digits_of_uint (N.to_uint (Z.to_N z))
  end.

(** The exponent of [float.__repr__]: a sign and at least two digits. *)
Definition exponent_repr (x : Z) : list N :=
  let ds := digits_of_uint (N.to_uint (Z.to_N (Z.abs x))) in
  (if (x <? 0)%Z then ch "-" else ch "+")
    :: match ds with [d] => [48; d] | _ => ds end.

(** [float.__repr__] (format code r): fixed notation when the decimal
    point lies within -4 < decpt <= 16, exponent notation otherwise; and the
    names the encoder gives to the values that are not numbers. *)
Definition float_repr (f : pyfloat) : list N :=
  match f with
  | FNaN => T "NaN"
  | FInf false => T "Infinity"
  | FInf true => T "-Infinity"
  | FFinite neg ds decpt =>
      (if neg then [ch "-"] else []) ++
      let n := Z.of_nat (length ds) in
      if ((-4 <? decpt) && (decpt <=? 16))%Z then
        if (decpt <=? 0)%Z then
          T "0." ++ repeat 48 (Z.to_nat (- decpt)) ++ ds
        else if (n <=? decpt)%Z then
          ds ++ repeat 48 (Z.to_nat (decpt - n)) ++ T ".0"
        else
          take (Z.to_nat decpt) ds ++ ch "." :: drop (Z.to_nat decpt) ds
      else
        match ds with
        | [] => []
        | [d] => d :: ch "e" :: exponent_repr (decpt - 1)
        | d :: r => d :: ch "." :: r ++ ch "e" :: exponent_repr (decpt - 1)
        end
  end.

(** Python's order on [str]: lexicographic on code points. *)
Fixpoint text_leb (a b : list N) : bool :=
  match a, b with
  | [], _ => true
  | _ :: _, [] => false
  | x :: a', y :: b' =>
      if x <? y then true else if y <? x then false else text_leb a' b'
  end.

Fixpoint insert_item {A} (kv : list N * A) (l : list (list N * A)) : list (list N * A) :=
  match l with
  | [] => [kv]
  | kv' :: r =>
      if text_leb (fst kv) (fst kv') then kv :: l else kv' :: insert_item kv r
  end.

(** [sorted(dct.items())], for items of distinct keys. *)
Definition sorted_items {A} (d : list (list N * A)) : list (list N * A) :=
  foldr insert_item [] d.

Definition newline_indent (indent : option nat) (level : nat) : list N :=
  match indent with
  | Some n => newline :: repeat 32 (n * level)%nat
  | None => []
  end.

Definition key_separator (indent : option nat) : list N :=
  match indent with
  | Some _ => T ": "
  | None => T ":"
  end.

Fixpoint join (sep : list N) (l : list (list N)) : list N :=
  match l with
  | [] => []
  | [x] => x
  | x :: r => x ++ sep ++ join sep r
  end.

(** [_iterencode], its chunks concatenated. *)
Fixpoint encode (indent : option nat) (level : nat) (o : pyvalue) : list N :=
  match o with
  | PyNone => T "null"
  | PyBool true => T "true"
  | PyBool false => T "false"
  | PyInt z => int_repr z
  | PyFloat f => float_repr f
  | PyStr s => encode_basestring_ascii s
  | PyList [] => T "[]"
  | PyList l =>
      let nl := newline_indent indent (S level) in
      ch "[" :: nl
        ++ join (ch "," :: nl) (map (encode indent (S level)) l)
        ++ newline_indent indent level ++ [ch "]"]
  | PyDict [] => T "{}"
  | PyDict d =>
      let nl := newline_indent indent (S level) in
      let items :=
        sorted_items (map (fun kv => (fst kv, encode indent (S level) (snd kv))) d) in
      ch "{" :: nl
        ++ join (ch "," :: nl)
             (map (fun kv => encode_basestring_ascii (fst kv)
                               ++ key_separator indent ++ snd kv) items)
        ++ newline_indent indent level ++ [ch "}"]
  end.

End Encoder.

Definition dumps (indent : option nat) (o : pyvalue) : list N :=
  Encoder.encode indent 0 o.

(** *** Values up to the order of the members of an object *)

(** The value with the members of every object in the order of their
    keys (Python's [==] on dicts does not depend on the order of the
    items). *)
Fixpoint canon (v : pyvalue) : pyvalue :=
  match v with
  | PyList l => PyList (map canon l)
  | PyDict d => PyDict (Encoder.sorted_items (map (fun kv => (fst kv, canon (snd kv))) d))
  | _ => v
  end.

(** The same JSON value: the same scalar, arrays of the same elements in
    the same order, objects of the same members in any order. *)
#[warnings="-register-all"]
Inductive same_json : pyvalue -> pyvalue -> Prop :=
| same_scalar v :
    match v with PyList _ | PyDict _ => False | _ => True end -> same_json v v
| same_array l l' :
    Forall2 same_json l l' -> same_json (PyList l) (PyList l')
| same_object d d' d'' :
    Permutation d d' ->
    Forall2 (fun a b => fst a = fst b /\ same_json (snd a) (snd b)) d' d'' ->
    same_json (PyDict d) (PyDict d'').

Fixpoint sep_tokens (l : list (list token)) : list token :=
  match l with
  | [] => []
  | [x] => x
  | x :: r => x ++ TComma :: sep_tokens r
  end.

(** The tokens of the encoding of a value. *)
Fixpoint tokens (v : pyvalue) : list token :=
  match v with
  | PyList [] => [TLBracket; TRBracket]
  | PyList l => TLBracket :: sep_tokens (map tokens l) ++ [TRBracket]
  | PyDict [] => [TLBrace; TRBrace]
  | PyDict d =>
      TLBrace
        :: sep_tokens
             (map (fun kv => TAtom (PyStr (fst kv)) :: TColon :: snd kv)
                (Encoder.sorted_items (map (fun kv => (fst kv, tokens (snd kv))) d)))
        ++ [TRBrace]
  | _ => [TAtom v]
  end.

(** *** The values that the decoder makes *)

(** Unicode scalar values: the code points of a text decoded from bytes. *)
Definition scalar_value (c : N) : bool :=
  (c <? 55296) || ((57343 <? c) && (c <? 1114112)).

Fixpoint no_surrogate_pair (s : list N) : bool :=
  match s with
  | a :: r =>
      match r with
      | b :: _ => negb (is_high_surrogate a && is_low_surrogate b)
      | [] => true
      end && no_surrogate_pair r
  | [] => true
  end.

(** A [str] of code points in which no high surrogate stands before a low
    one. *)
Definition wf_str (s : list N) : bool :=
  forallb (fun c => c <? 1114112) s && no_surrogate_pair s.

(** The digits of a float are those of [repr]: zero is the digit 0 with the
    point after it; any other number has a first and a last digit that are
    not 0. *)
Definition wf_float (f : pyfloat) : bool :=
  match f with
  | FFinite _ ds decpt =>
      forallb is_digit ds &&
      match ds with
      | [] => false
      | d :: r =>
          if d =? 48 then bool_decide (r = []) && (decpt =? 1)%Z
          else negb (List.last ds 0 =? 48)
      end
  | _ => true
  end.

(** The names that [repr] gives: the decimals that [float()] reads back
    as they are. *)
Definition is_repr (f : pyfloat) : bool :=
  match f with
  | FFinite neg (d :: r) decpt =>
      (d =? 48) || bool_decide (float_of_decimal neg (d :: r) decpt = f)
  | FFinite _ [] _ => false
  | _ => true
  end.

Fixpoint wf (v : pyvalue) : bool :=
  match v with
  | PyInt z => negb (overlong v)
  | PyFloat f => wf_float f
  | PyStr s => wf_str s
  | PyList l => forallb wf l
  | PyDict d =>
      bool_decide (NoDup (map fst d))
      && forallb (fun kv => wf_str (fst kv) && wf (snd kv)) d
  | _ => true
  end.

(** The values all of whose floats have the name that [repr] gives them:
    [float(repr(x)) == x], which is what CPython's [repr] is made for. *)
Fixpoint reprs (v : pyvalue) : bool :=
  match v with
  | PyFloat f => is_repr f
  | PyList l => forallb reprs l
  | PyDict d => forallb (fun kv => reprs (snd kv)) d
  | _ => true
  end.

(** How deep the arrays and objects of a value are nested. *)
Fixpoint nesting (v : pyvalue) : N :=
  match v with
  | PyList l => 1 + fold_right (fun x n => N.max (nesting x) n) 0 l
  | PyDict d => 1 + fold_right (fun kv n => N.max (nesting (snd kv)) n) 0 d
  | _ => 0
  end.

End Json.

(** ** RFC 8259: the texts that are JSON

    The grammar of RFC 8259, to which the words "syntactically valid JSON"
    of the specification refer; with [constants], the grammar with the three
    names [NaN], [Infinity] and [-Infinity] that CPython's decoder takes
    besides. *)

Module Rfc8259.
Import Json.

(** ws = *( %x20 / %x09 / %x0A / %x0D ) *)
Definition ws (w : list N) : Prop := forallb is_ws w = true.

Definition digits (ds : list N) : Prop := forallb is_digit ds = true.

(** frac = decimal-point 1*DIGIT, or nothing *)
Definition frac (s : list N) : Prop :=
  s = [] \/ exists ds, s = ch "." :: ds /\ ds <> [] /\ digits ds.

(** exp = e [ minus / plus ] 1*DIGIT, or nothing *)
Definition exp (s : list N) : Prop :=
  s = [] \/
  exists e sign ds,
    s = e :: sign ++ ds /\ (e = ch "e" \/ e = ch "E")
    /\ (sign = [] \/ sign = [ch "-"] \/ sign = [ch "+"])
    /\ ds <> [] /\ digits ds.

(** number = [ minus ] int [ frac ] [ exp ], int = zero / ( digit1-9 *DIGIT ) *)
Definition number (s : list N) : Prop :=
  exists (neg : bool) d ds f e,
    s = (if neg then [ch "-"] else []) ++ d :: ds ++ f ++ e
    /\ digits (d :: ds) /\ (d = 48 -> ds = []) /\ frac f /\ exp e.

(** *char: unescaped characters, the two-character escapes and the escapes
    of four hexadecimal digits *)
Inductive chars : list N -> Prop :=
| chars_nil : chars []
| chars_unescaped c r :
    32 <= c -> c <> quote -> c <> backslash -> c < 1114112 -> chars r -> chars (c :: r)
| chars_escape e r :
    e ∈ [quote; backslash; ch "/"; ch "b"; ch "f"; ch "n"; ch "r"; ch "t"] ->
    chars r -> chars (backslash :: e :: r)
| chars_unicode a b c d r :
    hex_value a <> None -> hex_value b <> None -> hex_value c <> None ->
    hex_value d <> None ->
    chars r -> chars (backslash :: ch "u" :: a :: b :: c :: d :: r).

Section grammar.
Variable constants : bool.

(** value = false / null / true / object / array / number / string *)
Inductive value : list N -> Prop :=
| value_false : value (T "false")
| value_null : value (T "null")
| value_true : value (T "true")
| value_number s : number s -> value s
| value_string s : chars s -> value (quote :: s ++ [quote])
| value_empty_array w : ws w -> value (ch "[" :: w ++ [ch "]"])
| value_array els : elements els -> value (ch "[" :: els ++ [ch "]"])
| value_empty_object w : ws w -> value (ch "{" :: w ++ [ch "}"])
| value_object ms : members ms -> value (ch "{" :: ms ++ [ch "}"])
| value_constant s :
    constants = true -> s ∈ [T "NaN"; T "Infinity"; T "-Infinity"] -> value s
with elements : list N -> Prop :=
| elements_one w1 v w2 : ws w1 -> value v -> ws w2 -> elements (w1 ++ v ++ w2)
| elements_more w1 v w2 r :
    ws w1 -> value v -> ws w2 -> elements r -> elements (w1 ++ v ++ w2 ++ ch "," :: r)
with members : list N -> Prop :=
| members_one w1 k w2 w3 v w4 :
    ws w1 -> chars k -> ws w2 -> ws w3 -> value v -> ws w4 ->
    members (w1 ++ quote :: k ++ quote :: w2 ++ ch ":" :: w3 ++ v ++ w4)
| members_more w1 k w2 w3 v w4 r :
    ws w1 -> chars k -> ws w2 -> ws w3 -> value v -> ws w4 -> members r ->
    members (w1 ++ quote :: k ++ quote :: w2 ++ ch ":" :: w3 ++ v ++ w4 ++ ch "," :: r).

(** JSON-text = ws value ws *)
Definition text (s : list N) : Prop :=
  exists w1 v w2, s = w1 ++ v ++ w2 /\ ws w1 /\ value v /\ ws w2.

End grammar.

(** The texts of RFC 8259. *)
Definition json : list N -> Prop := text false.

End Rfc8259.

(** ** The operating system: files, os.path, open *)

Module Os.

(** What stands at a path: a directory, or a regular file that the process
    may not read, whose bytes are not text in the encoding of the reader, or
    whose text is [contents]. *)
Inductive node :=
| Directory
| Unreadable
| Undecodable
| File (contents : list N).

#[global] Instance node_eq_dec : EqDecision node.
Proof. solve_decision. Defined.

Inductive open_mode := mode_r | mode_w.

(** The system calls a computation makes, in order. *)
Inductive event :=
| Stat (p : string)
| Open (p : string) (m : open_mode)
| Read (p : string)
| Close (p : string).

Record world := World { files : gmap string node; trace : list event }.

(** A computation of the process: it returns or raises, and leaves a
    world. *)
Definition IO (A : Type) : Type := world -> result A * world.

Definition ret {A} (a : A) : IO A := fun w => (Return a, w).
Definition raise {A} (e : exn) : IO A := fun w => (Raise e, w).
Definition bind {A B} (m : IO A) (k : A -> IO B) : IO B :=
  fun w =>
    match m w with
    | (Return a, w') => k a w'
    | (Raise e, w') => (Raise e, w')
    end.

Definition lift {A} (r : result A) : IO A := fun w => (r, w).

Definition emit (ev : event) : IO unit :=
  fun w => (Return tt, World (files w) (trace w ++ [ev])).

Definition lookup_node (p : string) : IO (option node) :=
  fun w => (Return (files w !! p), w).

Definition store (p : string) (n : node) : IO unit :=
  fun w => (Return tt, World (<[p := n]> (files w)) (trace w)).

End Os.

#[global] Instance IO_ret : MRet Os.IO := @Os.ret.
#[global] Instance IO_bind : MBind Os.IO := fun A B k m => Os.bind m k.

Module OsPath.
Import Os.

Definition is_sep (a : ascii) : bool := Ascii.eqb a "/"%char.

Fixpoint endswith_sep (s : string) : bool :=
  match s with
  | EmptyString => false
  | String a EmptyString => is_sep a
  | String _ r => endswith_sep r
  end.

Definition startswith_sep (s : string) : bool :=
  match s with
  | String a _ => is_sep a
  | EmptyString => false
  end.

(** posixpath.join *)
Fixpoint join (a : string) (p : list string) : string :=
  match p with
  | [] => a
  | b :: r =>
      join (if startswith_sep b then b
            else if (String.eqb a "" || endswith_sep a)%bool then (a ++ b)%string
            else (a ++ "/" ++ b)%string) r
  end.

(** os.path.exists: whether [os.stat] succeeds. *)
Definition exists_ (p : string) : IO bool :=
  emit (Stat p);;
  n ← lookup_node p;
  ret (match n with Some _ => true | None => false end).

(** os.path.isfile *)
Definition isfile (p : string) : IO bool :=
  emit (Stat p);;
  n ← lookup_node p;
  ret (match n with Some Directory | None => false | Some _ => true end).

End OsPath.

Module Builtins.
Import Os.

(** An open file object. *)
Record file := { name : string }.

(** open(path, mode) *)
Definition open_ (p : string) (m : open_mode) : IO file :=
  emit (Open p m);;
  n ← lookup_node p;
  match n, m with
  | Some Directory, _ => raise IsADirectoryError
  | Some Unreadable, _ => raise PermissionError
  | None, mode_r => raise FileNotFoundError
  | Some _, mode_r => ret {| name := p |}
  | _, mode_w => store p (File []) ;; ret {| name := p |}
  end.

(** f.read() *)
Definition read (f : file) : IO (list N) :=
  emit (Read (name f));;
  n ← lookup_node (name f);
  match n with
  | Some (File s) => ret s
  | Some Undecodable => raise UnicodeDecodeError
  | Some Directory => raise IsADirectoryError
  | Some Unreadable => raise PermissionError
  | None => raise FileNotFoundError
  end.

Definition close (f : file) : IO unit := emit (Close (name f)).

(** [with open(p, m) as f: body]: the file is closed whether the body
    returns or raises. *)
Definition with_open {A} (p : string) (m : open_mode) (body : file -> IO A) : IO A :=
  fun w =>
    match open_ p m w with
    | (Raise e, w1) => (Raise e, w1)
    | (Return f, w1) =>
        let '(r, w2) := body f w1 in
        (r, snd (close f w2))
    end.

(** json.load(fp) is json.loads(fp.read()) *)
Definition json_load (fp : file) : IO pyvalue :=
  s ← read fp;
  lift (Json.loads s).

End Builtins.

(** ** Flask *)

Module Flask.
Import Os.

Record Response := { status : N; content_type : string; data : list N }.

(** The two renderers that are taken as they are: Jinja, from the source
    of a template to the page (no variables are passed by this program), and
    Werkzeug's page for an HTTP error, which shows the exception when the
    debugger is on. *)
Record Engines := {
  jinja_render : list N -> result (list N);
  error_page : N -> option exn -> list N
}.

(** The application object: [Flask(__name__)] takes its root path from the
    directory of the module; [debug] is off until [run(debug=True)]. *)
Record App := { engines : Engines; root_path : string; debug : bool }.

Definition Flask_ (eng : Engines) (module_dir : string) : App :=
  {| engines := eng; root_path := module_dir; debug := false |}.

Definition text_html : string := "text/html; charset=utf-8".
Definition application_json : string := "application/json".

(** DefaultJSONProvider.response: two spaces of indentation in debug mode,
    the compact separators otherwise, and a final newline. *)
Definition jsonify (app : App) (o : pyvalue) : Response :=
  {| status := 200;
     content_type := application_json;
     data := Json.dumps (if debug app then Some 2%nat else None) o ++ [newline] |}.

(** render_template without context, in a process whose Jinja environment
    holds no compiled template of that name (the first rendering of a process;
    a later one finds the compiled template in the cache of the environment and
    looks at the file again only to see whether it has changed, which it does
    with the debugger only).  [FileSystemLoader.get_source] looks for the file
    under [root_path/templates], reads it and notes its modification time; the
    source is then compiled and rendered. *)
Definition render_template (app : App) (name : string) : IO (list N) :=
  let path := OsPath.join (root_path app) ["templates"%string; name] in
  found ← OsPath.isfile path;
  if found : bool then
    source ← Builtins.with_open path mode_r (fun f => Builtins.read f);
    Os.emit (Stat path);;
    lift (jinja_render (engines app) source)
  else raise (TemplateNotFound name).

(** What a view function returns: a string or a response object. *)
Inductive rv := RvStr (s : list N) | RvResponse (r : Response).

Definition make_response (x : rv) : Response :=
  match x with
  | RvStr s => {| status := 200; content_type := text_html; data := s |}
  | RvResponse r => r
  end.

Inductive method := GET | HEAD | OPTIONS | POST | PUT | DELETE | PATCH.

Record Request := { meth : method; path : string }.

Definition error_response (app : App) (code : N) (e : option exn) : Response :=
  {| status := code; content_type := text_html;
     data := error_page (engines app) code e |}.

(** handle_exception: an exception that leaves a view becomes status 500;
    the page names the exception only when the debugger is on. *)
Definition handle_exception (app : App) (e : exn) : Response :=
  error_response app 500 (if debug app then Some e else None).

Fixpoint match_rule {A} (rules : list (string * A)) (p : string) : option A :=
  match rules with
  | [] => None
  | (rule, view) :: r => if String.eqb rule p then Some view else match_rule r p
  end.

(** wsgi_app for rules registered with [@app.route(rule)]: methods GET,
    and HEAD and OPTIONS which Flask adds. *)
Definition wsgi_app (app : App) (rules : list (string * IO rv)) (req : Request)
  : world -> Response * world :=
  fun w =>
    match match_rule rules (path req) with
    | None => (error_response app 404 None, w)
    | Some view =>
        match meth req with
        | GET =>
            match view w with
            | (Return x, w') => (make_response x, w')
            | (Raise e, w') => (handle_exception app e, w')
            end
        | HEAD =>
            match view w with
            | (Return x, w') =>
                let r := make_response x in
                ({| status := status r; content_type := content_type r; data := [] |}, w')
            | (Raise e, w') =>
                ({| status := 500; content_type := text_html; data := [] |}, w')
            end
        | OPTIONS => ({| status := 200; content_type := text_html; data := [] |}, w)
        | _ => (error_response app 405 None, w)
        end
    end.

End Flask.

(** ** app.py *)

Module App.
Import Os Flask.

(** The module's globals once it is imported. *)
Record globals := { app : Flask.App; BASE_DIR : string; LOG_DIR : string }.

(** The module-level statements; [here] is
    [os.path.abspath(os.path.dirname(__file__))]. *)
Definition module_init (eng : Engines) (here : string) : globals :=
  let app := Flask_ eng here in
  let BASE_DIR := here in
  let LOG_DIR := OsPath.join BASE_DIR ["results"; "logs"]%string in
  {| app := app; BASE_DIR := BASE_DIR; LOG_DIR := LOG_DIR |}.

Definition load_json (g : globals) (filename : string) : IO pyvalue :=
  let path := OsPath.join (LOG_DIR g) [filename] in
  found ← OsPath.exists_ path;
  if negb found then ret (PyDict [])
  else Builtins.with_open path mode_r (fun f => Builtins.json_load f).

Definition index (g : globals) : IO rv :=
  page ← render_template (app g) "index.html";
  ret (RvStr page).

Definition serial_metrics (g : globals) : IO rv :=
  o ← load_json g "serial_metrics.json";
  ret (RvResponse (jsonify (app g) o)).

Definition parallel_metrics (g : globals) : IO rv :=
  o ← load_json g "parallel_metrics.json";
  ret (RvResponse (jsonify (app g) o)).

Definition compare_metrics (g : globals) : IO rv :=
  o ← load_json g "compare_metrics.json";
  ret (RvResponse (jsonify (app g) o)).

(** The rules that the [@app.route] decorators register. *)
Definition url_map (g : globals) : list (string * IO rv) :=
  [("/", index g);
   ("/api/serial", serial_metrics g);
   ("/api/parallel", parallel_metrics g);
   ("/api/compare", compare_metrics g)]%string.

(** [if __name__ == "__main__": app.run(debug=True)] *)
Definition main (g : globals) : globals :=
  {| app := {| engines := engines (app g); root_path := root_path (app g); debug := true |};
     BASE_DIR := BASE_DIR g; LOG_DIR := LOG_DIR g |}.

(** The answer of the running application to one request. *)
Definition serve (g : globals) (req : Request) : world -> Response * world :=
  wsgi_app (app g) (url_map g) req.

End App.

(** ** The gateway as a whole: started process, routes, histories *)

Module Gateway.
Import Os Flask App.

(** The process once started: app.py run as a script calls
    [app.run(debug=True)]; imported by a WSGI server it does not. *)
Definition start (eng : Engines) (here : string) (as_main : bool) : globals :=
  let g := module_init eng here in
  if as_main then main g else g.

(** The three metrics operations, with the route and the file name that
    the specification gives to each. *)
Inductive metric := Serial | Parallel | Compare.

Definition route (m : metric) : string :=
  match m with
  | Serial => "/api/serial"
  | Parallel => "/api/parallel"
  | Compare => "/api/compare"
  end.

Definition file_name (m : metric) : string :=
  match m with
  | Serial => "serial_metrics.json"
  | Parallel => "parallel_metrics.json"
  | Compare => "compare_metrics.json"
  end.

Definition metrics_path (g : globals) (m : metric) : string :=
  OsPath.join (LOG_DIR g) [file_name m].

Definition template_path (g : globals) : string :=
  OsPath.join (root_path (app g)) ["templates"; "index.html"]%string.

Definition get (p : string) : Request := {| meth := GET; path := p |}.

(** The world after further system calls that change no file. *)
Definition log (w : world) (evs : list event) : world :=
  World (files w) (trace w ++ evs).

(** The path of an event. *)
Definition event_path (ev : event) : string :=
  match ev with
  | Stat p | Open p _ | Read p | Close p => p
  end.

(** What happens while the process runs: a request arrives, or the
    external producer of the metrics replaces or removes a file. *)
Inductive happening :=
| Incoming (req : Request)
| Produced (p : string) (n : option node).

Definition produce (p : string) (n : option node) (w : world) : world :=
  World (match n with Some x => <[p := x]> (files w) | None => delete p (files w) end)
        (trace w).

(** The responses of the process to the requests of a history, in order. *)
Fixpoint run (g : globals) (hs : list happening) (w : world) : list Response * world :=
  match hs with
  | [] => ([], w)
  | Incoming req :: r =>
      let '(resp, w1) := serve g req w in
      let '(resps, w2) := run g r w1 in
      (resp :: resps, w2)
  | Produced p n :: r => run g r (produce p n w)
  end.

(** A JSON string literal of ASCII characters that need no escape. *)
Definition Q (s : string) : list N := quote :: T s ++ [quote].

(** The renderers of the examples: a template without Jinja syntax renders
    to itself; the error page shows the status. *)
Definition plain_engines : Engines :=
  {| jinja_render := fun source => Return source;
     error_page := fun code _ => T "<title>" ++ Json.digits_of_uint (N.to_uint code) ++ T "</title>" |}.

(** What [load_json] comes to, by what stands at the path of its file: the
    result and the system calls made. *)
Definition load_outcome (p : string) (n : option node) : result pyvalue * list event :=
  match n with
  | None => (Return (PyDict []), [Stat p])
  | Some Directory => (Raise IsADirectoryError, [Stat p; Open p mode_r])
  | Some Unreadable => (Raise PermissionError, [Stat p; Open p mode_r])
  | Some Undecodable =>
      (Raise UnicodeDecodeError, [Stat p; Open p mode_r; Read p; Close p])
  | Some (File s) => (Json.loads s, [Stat p; Open p mode_r; Read p; Close p])
  end.

(** An installation for the examples, and a results directory that holds
    the given text as serial_metrics.json. *)
Definition here0 : string := "/srv/app".

Definition results_with (s : list N) : world :=
  World {[ "/srv/app/results/logs/serial_metrics.json"%string := File s ]} [].

Definition no_results : world := World ∅ [].

(** The system calls that change no file: all but an open for writing. *)
Definition reads_only (ev : event) : Prop :=
  match ev with
  | Open _ mode_w => False
  | _ => True
  end.

(** What [render_template] comes to, by what stands at the path of the
    template. *)
Definition template_outcome (a : App) (name p : string) (n : option node)
  : result (list N) * list event :=
  match n with
  | None | Some Directory => (Raise (TemplateNotFound name), [Stat p])
  | Some Unreadable => (Raise PermissionError, [Stat p; Open p mode_r])
  | Some Undecodable =>
      (Raise UnicodeDecodeError, [Stat p; Open p mode_r; Read p; Close p])
  | Some (File s) =>
      (jinja_render (engines a) s, [Stat p; Open p mode_r; Read p; Close p; Stat p])
  end.

(** The files once a history has happened. *)
Definition files_after (hs : list happening) (fs : gmap string node) : gmap string node :=
  fold_left (fun fs h =>
               match h with
               | Incoming _ => fs
               | Produced p n => files (produce p n (World fs []))
               end) hs fs.

(** A directory as the first component of a joined path. *)
Definition with_sep (d : string) : string :=
  if (String.eqb d "" || OsPath.endswith_sep d)%bool then d else (d ++ "/")%string.

(** The paths in and below a directory. *)
Definition under (d p : string) : Prop :=
  exists rest, p = (with_sep d ++ rest)%string.

(** The JSON values that are neither object nor array. *)
Definition scalar (v : pyvalue) : Prop :=
  match v with
  | PyList _ | PyDict _ => False
  | _ => True
  end.

(** The first example of the specification: an object with one member,
    written with a space after the colon. *)
Definition spec_example : list N := T "{" ++ Q "a" ++ T ": 1}".

(** What jsonify writes for it, without and with the debugger. *)
Definition spec_example_compact : list N := T "{" ++ Q "a" ++ T ":1}" ++ [newline].

Definition spec_example_indented : list N :=
  T "{" ++ [newline] ++ T "  " ++ Q "a" ++ T ": 1" ++ [newline] ++ T "}" ++ [newline].

(** An installation with its template, without and with a metrics file. *)
Definition index_page : list N := T "<!doctype html><title>Metrics</title>".

Definition installed : world :=
  World {[ "/srv/app/templates/index.html"%string := File index_page ]} [].

Definition installed_with (s : list N) : world :=
  World (<[ "/srv/app/results/logs/serial_metrics.json"%string := File s ]>
           {[ "/srv/app/templates/index.html"%string := File index_page ]}) [].

(** The response made from what a view came to. *)
Definition respond (a : App) (r : result Response) : Response :=
  match r with
  | Return x => x
  | Raise e => handle_exception a e
  end.

End Gateway.

(** ** Notions for the proofs *)

Import Json.

(** Running a computation of the process on a world, step by step. *)
Ltac run_io :=
  unfold Builtins.with_open, Builtins.open_, Builtins.json_load, Builtins.read,
    Builtins.close, OsPath.exists_, OsPath.isfile, mbind, IO_bind, Os.bind, Os.emit,
    Os.lookup_node, Os.ret, Os.raise, Os.lift, Gateway.log;
  cbn [Os.files Os.trace Builtins.name fst snd negb].

(** A text at whose head no digit stands. *)
Definition no_digit_head (s : list N) : Prop :=
  match s with c :: _ => is_digit c = false | [] => True end.

(** What may follow a number in a text without becoming part of it. *)
Definition stops (s : list N) : Prop :=
  match s with
  | c :: _ => is_digit c = false /\ c <> ch "." /\ c <> ch "e" /\ c <> ch "E"
  | [] => True
  end.

(** The parts of a number as they are written: the fraction with its
    point, the exponent with its letter and sign; and the value that NUMBER_RE
    and the two conversions give to a number written in these parts. *)
Definition frac_text (frac : list N) : list N :=
  match frac with [] => [] | _ => ch "." :: frac end.

Definition exp_text (e : option (bool * list N)) : list N :=
  match e with
  | None => []
  | Some (eneg, eds) => ch "e" :: (if eneg : bool then ch "-" else ch "+") :: eds
  end.

Definition lexeme_value (neg : bool) (ipart frac : list N) (e : option (bool * list N))
  : pyvalue :=
  match frac, e with
  | [], None => PyInt (int_of_lexeme neg ipart)
  | _, None => PyFloat (float_of_lexeme neg ipart frac 0)
  | _, Some (eneg, eds) => PyFloat (float_of_lexeme neg ipart frac (int_of_lexeme eneg eds))
  end.

Ltac flatten := repeat (progress (rewrite <- ?app_assoc; cbn [app])).
Ltac flatten_in H := repeat (progress (rewrite <- ?app_assoc in H; cbn [app] in H)).
Ltac by_lexeme H := flatten_in H; flatten; rewrite H.

(** One more character at the head of what [scanstring] returns. *)
Definition prepend (c : N) (r : option (list N * list N)) : option (list N * list N) :=
  match r with
  | Some (str, rest) => Some (c :: str, rest)
  | None => None
  end.

(** The look-ahead of [scanstring] after a [\u] escape of value [uni]:
    the code point that the escape stands for, alone or with the escape that
    follows, and the text after it. *)
Definition paired (uni : N) (r2 : list N) : option (N * list N) :=
  if is_high_surrogate uni && starts_with [backslash; ch "u"] r2 then
    match decode_uXXXX (drop 2 r2) with
    | None => None
    | Some (uni2, r3) =>
        if is_low_surrogate uni2
        then Some (join_surrogates uni uni2, r3)
        else Some (uni, r2)
    end
  else Some (uni, r2).

(** A string between its quotes, as the encoder writes it. *)
Definition escaped (s : list N) : list N := concat (map Encoder.escape_char s).

(** The two surrogates that the encoder writes for a code point above the
    basic plane. *)
Definition high_of (c : N) : N := 55296 + (c - 65536) / 1024 mod 1024.
Definition low_of (c : N) : N := 56320 + (c - 65536) mod 1024.

(** [lexes s ts]: any fuel above the length of [s] makes [ts] of [s]. *)
Definition lexes (s : list N) (ts : list token) : Prop :=
  forall f, (length s < f)%nat -> lex f s = Some ts.

(** The values that are one token. *)
Definition is_atom (v : pyvalue) : Prop :=
  match v with PyList _ | PyDict _ => False | _ => True end.

(** Induction on a value with the hypothesis for every element of a list
    and every member of a dict. *)
Section pyvalue_induction.
Variable P : pyvalue -> Prop.
Hypothesis Hnone : P PyNone.
Hypothesis Hbool : forall b, P (PyBool b).
Hypothesis Hint : forall z, P (PyInt z).
Hypothesis Hfloat : forall f, P (PyFloat f).
Hypothesis Hstr : forall s, P (PyStr s).
Hypothesis Hlist : forall l, Forall P l -> P (PyList l).
Hypothesis Hdict : forall d, Forall (fun kv => P (snd kv)) d -> P (PyDict d).

Fixpoint pyvalue_nested_ind (v : pyvalue) : P v :=
  match v with
  | PyNone => Hnone
  | PyBool b => Hbool b
  | PyInt z => Hint z
  | PyFloat f => Hfloat f
  | PyStr s => Hstr s
  | PyList l =>
      Hlist l ((fix go (l : list pyvalue) : Forall P l :=
                  match l with
                  | [] => @List.Forall_nil _ P
                  | x :: r => @List.Forall_cons _ P x r (pyvalue_nested_ind x) (go r)
                  end) l)
  | PyDict d =>
      Hdict d ((fix go (d : list (list N * pyvalue)) : Forall (fun kv => P (snd kv)) d :=
                  match d with
                  | [] => @List.Forall_nil _ _
                  | kv :: r => @List.Forall_cons _ _ kv r (pyvalue_nested_ind (snd kv)) (go r)
                  end) d)
  end.
End pyvalue_induction.

(** What follows a value in an encoding, or in a text that ends with
    whitespace after it. *)
Definition delimiter (s : list N) : Prop :=
  match s with
  | c :: _ => c ∈ [ch ","; ch "]"; ch "}"; newline; 32; 9; 13]
  | [] => True
  end.

(** The tokens with which a value starts. *)
Definition opens_value (t : token) : Prop :=
  match t with
  | TAtom _ | TLBracket | TLBrace => True
  | _ => False
  end.

(** A text of Unicode scalar values: every text decoded from the bytes of
    a file is one. *)
Abbreviation scalars s := (Forall (fun c => scalar_value c = true) s).

(** A low surrogate at the head of a scanned string was written as a
    [\u] escape of its own. *)
Definition low_head (s str : list N) : Prop :=
  match str with
  | c :: _ =>
      is_low_surrogate c = true ->
      starts_with [backslash; ch "u"] s = true
      /\ exists r, decode_uXXXX (drop 2 s) = Some (c, r)
  | [] => True
  end.

(** What is left of a text after a scan. *)
Definition suffix_of_text (r s : list N) : Prop := exists k, r = drop k s.

(** The tokens that the tokenizer makes of a text of scalar values. *)
Definition wf_token (t : token) : Prop :=
  match t with
  | TAtom v => wf v = true /\ is_atom v
  | _ => True
  end.

(** *** Routes, paths and texts of the further properties *)

(** Items in the order of their keys, as [sorted] leaves them. *)
Fixpoint key_sorted {A} (l : list (list N * A)) : Prop :=
  match l with
  | a :: r =>
      match r with
      | b :: _ => Encoder.text_leb (fst a) (fst b) = true
      | [] => True
      end /\ key_sorted r
  | [] => True
  end.

(** A text of ASCII characters only. *)
Definition ascii_only (s : list N) : Prop := Forall (fun c => c < 128) s.

Ltac ascii_literal := unfold ascii_only; repeat constructor.

(** An object written with its members in two orders, and a string with a
    character that is not ASCII. *)
Definition members_b_a : list N := T "{" ++ Gateway.Q "b" ++ T ": 2, " ++ Gateway.Q "a" ++ T ": 1}".

Definition members_a_b : list N := T "{" ++ Gateway.Q "a" ++ T ":1," ++ Gateway.Q "b" ++ T ":2}".

Definition accented_example : list N := [quote; 233; quote].

(** A document of timings, with its members out of order and a nested
    array, and the value that json.load makes of it. *)
Definition timing_example : list N :=
  T "{" ++ Gateway.Q "threads" ++ T ": [1, 2, 4], " ++ Gateway.Q "serial" ++ T ": 0.125, "
    ++ Gateway.Q "best" ++ T ": 3.1e-2}".

Definition timing_value : pyvalue :=
  PyDict [(T "threads", PyList [PyInt 1; PyInt 2; PyInt 4]);
          (T "serial", PyFloat (FFinite false (T "125") 0));
          (T "best", PyFloat (FFinite false (T "31") (-1)))].

(** Two numbers of JSON: one beyond the range of binary64, and an integer
    of 4301 digits. *)
Definition overflowing_example : list N := T "1e400".

Definition long_integer : list N := repeat 49 4301.

(** * The json module: decoding an encoding *)

(** ** Numbers *)

Lemma span_digits_app ds tail :
  forallb is_digit ds = true -> no_digit_head tail ->
  span_digits (ds ++ tail) = (ds, tail).
Proof.
  intros Hds Htail. induction ds as [|d ds IH]; cbn [app].
  - destruct tail as [|c t]; [reflexivity|]. cbn in *. by rewrite Htail.
  - cbn in Hds. apply andb_true_iff in Hds as [Hd Hds].
    cbn [span_digits]. rewrite Hd, IH by done. reflexivity.
Qed.

Lemma is_digit_neq c a : is_digit c = true -> is_digit a = false -> (c =? a) = false.
Proof. intros Hc Ha. apply N.eqb_neq. intros ->. congruence. Qed.

Lemma scan_sign_lexeme (neg : bool) d tail :
  is_digit d = true ->
  scan_sign ((if neg then [ch "-"] else []) ++ d :: tail) = (neg, d :: tail).
Proof.
  intros Hd. destruct neg; [reflexivity|]. cbn [app scan_sign].
  by rewrite (is_digit_neq d (ch "-"%char)).
Qed.

Lemma scan_int_lexeme d ds tail :
  is_digit d = true -> forallb is_digit ds = true -> (d = 48 -> ds = []) ->
  no_digit_head tail ->
  scan_int (d :: ds ++ tail) = Some (d :: ds, tail).
Proof.
  intros Hd Hds Hzero Htail. cbn [scan_int]. rewrite Hd. cbn [negb].
  destruct (d =? 48) eqn:E.
  - apply N.eqb_eq in E. by rewrite (Hzero E).
  - by rewrite span_digits_app.
Qed.

Lemma scan_frac_none tail :
  match tail with c :: _ => c <> ch "." | [] => True end ->
  scan_frac tail = ([], tail).
Proof.
  destruct tail as [|c t]; [reflexivity|]. intros Hc. cbn [scan_frac].
  apply N.eqb_neq in Hc. by rewrite Hc.
Qed.

Lemma scan_frac_lexeme f frac tail :
  forallb is_digit (f :: frac) = true -> no_digit_head tail ->
  scan_frac (ch "." :: (f :: frac) ++ tail) = (f :: frac, tail).
Proof.
  intros Hf Htail. unfold scan_frac. rewrite N.eqb_refl.
  by rewrite span_digits_app.
Qed.

Lemma scan_exp_none tail :
  match tail with c :: _ => c <> ch "e" /\ c <> ch "E" | [] => True end ->
  scan_exp tail = (None, tail).
Proof.
  destruct tail as [|c t]; [reflexivity|]. intros [H1 H2]. cbn [scan_exp].
  apply N.eqb_neq in H1, H2. by rewrite H1, H2.
Qed.

Lemma scan_exp_lexeme eneg d eds tail :
  forallb is_digit (d :: eds) = true -> no_digit_head tail ->
  scan_exp (ch "e" :: (if eneg : bool then ch "-" else ch "+") :: (d :: eds) ++ tail)
    = (Some (int_of_lexeme eneg (d :: eds)), tail).
Proof.
  intros Hds Htail. unfold scan_exp.
  replace ((ch "e" =? ch "e") || (ch "e" =? ch "E")) with true by reflexivity.
  destruct eneg.
  - replace (ch "-" =? ch "-") with true by reflexivity. by rewrite span_digits_app.
  - replace (ch "+" =? ch "-") with false by reflexivity.
    replace (ch "+" =? ch "+") with true by reflexivity. by rewrite span_digits_app.
Qed.

Lemma stops_no_digit tail : stops tail -> no_digit_head tail.
Proof. destruct tail; [done|]. cbn. tauto. Qed.

Lemma scan_number_lexeme (neg : bool) d ds frac e rest :
  is_digit d = true -> forallb is_digit ds = true -> (d = 48 -> ds = []) ->
  forallb is_digit frac = true ->
  match e with
  | Some (_, eds) => eds <> [] /\ forallb is_digit eds = true
  | None => True
  end ->
  stops rest ->
  scan_number ((if neg then [ch "-"] else []) ++ d :: ds ++ frac_text frac ++ exp_text e ++ rest)
    = Some (lexeme_value neg (d :: ds) frac e, rest).
Proof.
  intros Hd Hds Hzero Hfrac He Hrest.
  pose proof (stops_no_digit _ Hrest) as Hrest'.
  unfold scan_number. rewrite scan_sign_lexeme by done.
  assert (H3 : no_digit_head (exp_text e ++ rest)).
  { destruct e as [[eneg eds]|]; [reflexivity|exact Hrest']. }
  assert (H2 : no_digit_head (frac_text frac ++ exp_text e ++ rest)).
  { destruct frac; [exact H3|reflexivity]. }
  rewrite scan_int_lexeme by done.
  assert (Hf : scan_frac (frac_text frac ++ exp_text e ++ rest) = (frac, exp_text e ++ rest)).
  { destruct frac as [|f frac].
    - apply scan_frac_none. cbn [frac_text app].
      destruct e as [[eneg eds]|]; [done|]. cbn [exp_text app].
      destruct rest; [done|]. cbn in Hrest. tauto.
    - cbn [frac_text]. rewrite <- app_comm_cons. by apply scan_frac_lexeme. }
  rewrite Hf.
  destruct e as [[eneg eds]|].
  - destruct He as [Hne He]. destruct eds as [|x eds]; [done|].
    cbn [exp_text]. rewrite <- !app_comm_cons, app_comm_cons.
    rewrite scan_exp_lexeme by done.
    destruct frac; reflexivity.
  - cbn [exp_text app]. rewrite scan_exp_none.
    + destruct frac; reflexivity.
    + destruct rest; [done|]. cbn in Hrest. tauto.
Qed.

(** *** Digits *)

Lemma uint_of_digits_of_uint u : uint_of_digits (digits_of_uint u) = u.
Proof.
  induction u as [|u IH|u IH|u IH|u IH|u IH|u IH|u IH|u IH|u IH|u IH];
    [reflexivity|..]; cbn [digits_of_uint uint_of_digits]; rewrite IH; reflexivity.
Qed.

Lemma digits_of_uint_digits u : forallb is_digit (digits_of_uint u) = true.
Proof. induction u; cbn [digits_of_uint forallb]; [reflexivity|..]; rewrite IHu; reflexivity. Qed.

Lemma nat_of_digits_to_uint n : nat_of_digits (digits_of_uint (N.to_uint n)) = n.
Proof.
  unfold nat_of_digits. rewrite uint_of_digits_of_uint. apply DecimalN.Unsigned.of_to.
Qed.

(** The digits of a number start with 0 only when the number is 0. *)
Lemma to_uint_shape n :
  exists d ds, digits_of_uint (N.to_uint n) = d :: ds
               /\ is_digit d = true /\ (d = 48 -> ds = []).
Proof.
  pose proof (DecimalN.Unsigned.to_of (N.to_uint n)) as H.
  rewrite DecimalN.Unsigned.of_to in H.
  unfold Decimal.unorm in H.
  pose proof (DecimalFacts.nzhead_nonzero (N.to_uint n)) as Hnz.
  destruct (Decimal.nzhead (N.to_uint n)) eqn:E; rewrite H; cbn [digits_of_uint];
    eexists _, _; (split; [reflexivity|]); (split; [reflexivity|]);
    try discriminate; try reflexivity.
  intros _. destruct (Hnz u). reflexivity.
Qed.

Lemma scan_number_int z rest :
  stops rest -> scan_number (Encoder.int_repr z ++ rest) = Some (PyInt z, rest).
Proof.
  intros Hrest.
  assert (Hgen : forall (neg : bool) n,
    scan_number ((if neg then [ch "-"] else []) ++ digits_of_uint (N.to_uint n) ++ rest)
      = Some (PyInt (if neg then - Z.of_N n else Z.of_N n)%Z, rest)).
  { intros neg n. destruct (to_uint_shape n) as (d & ds & Hshape & Hd & Hzero).
    pose proof (digits_of_uint_digits (N.to_uint n)) as Hall.
    pose proof (nat_of_digits_to_uint n) as Hval.
    rewrite Hshape in *. cbn [forallb] in Hall. apply andb_true_iff in Hall as [_ Hall].
    pose proof (scan_number_lexeme neg d ds [] None rest Hd Hall Hzero eq_refl I Hrest) as H.
    cbn [frac_text exp_text app lexeme_value] in H.
    rewrite <- app_comm_cons. rewrite H. unfold int_of_lexeme. by rewrite Hval. }
  destruct z as [|p|p]; unfold Encoder.int_repr.
  - apply (Hgen false 0).
  - apply (Hgen false (Npos p)).
  - apply (Hgen true (Npos p)).
Qed.

(** *** Floats *)

Lemma drop_zeros_repeat k ds :
  match ds with c :: _ => c <> 48 | [] => True end ->
  drop_zeros (repeat 48 k ++ ds) = (k, ds).
Proof.
  intros Hds. induction k as [|k IH]; cbn [repeat app drop_zeros].
  - destruct ds as [|c t]; [reflexivity|]. cbn [drop_zeros].
    apply N.eqb_neq in Hds. by rewrite Hds.
  - by rewrite IH.
Qed.

Lemma rev_repeat {A} (x : A) k : rev (repeat x k) = repeat x k.
Proof.
  induction k as [|k IH]; [reflexivity|]. cbn [repeat rev]. rewrite IH.
  clear IH. induction k as [|k IH]; [reflexivity|]. cbn. by rewrite IH.
Qed.

Lemma strip_trailing_zeros_repeat ds k :
  ds <> [] -> List.last ds 0 <> 48 ->
  strip_trailing_zeros (ds ++ repeat 48 k) = ds.
Proof.
  intros Hne Hlast. unfold strip_trailing_zeros.
  rewrite rev_app_distr, rev_repeat, drop_zeros_repeat; [apply rev_involutive|].
  destruct (rev ds) as [|c t] eqn:E; [done|].
  assert (ds = rev t ++ [c]) as ->.
  { rewrite <- (rev_involutive ds), E. reflexivity. }
  by rewrite List.last_last in Hlast.
Qed.

Lemma of_uint_D0 u : N.of_uint (Decimal.D0 u) = N.of_uint u.
Proof.
  rewrite <- DecimalN.Unsigned.of_uint_norm, DecimalFacts.unorm_D0.
  apply DecimalN.Unsigned.of_uint_norm.
Qed.

Lemma nat_of_digits_zero ds : nat_of_digits (48 :: ds) = nat_of_digits ds.
Proof. unfold nat_of_digits. apply (of_uint_D0 (uint_of_digits ds)). Qed.

(** The exponent that [repr] writes reads back as the number. *)
Lemma exponent_repr_spec x :
  exists eneg d eds,
    Encoder.exponent_repr x = (if eneg : bool then ch "-" else ch "+") :: d :: eds
    /\ forallb is_digit (d :: eds) = true
    /\ int_of_lexeme eneg (d :: eds) = x.
Proof.
  unfold Encoder.exponent_repr.
  set (n := Z.to_N (Z.abs x)).
  assert (Hx : x = (if (x <? 0)%Z then - Z.of_N n else Z.of_N n)%Z).
  { unfold n. destruct (Z.ltb_spec x 0); lia. }
  destruct (to_uint_shape n) as (d & ds & Hshape & Hd & _).
  pose proof (digits_of_uint_digits (N.to_uint n)) as Hall.
  pose proof (nat_of_digits_to_uint n) as Hval.
  rewrite Hshape in *.
  exists (x <? 0)%Z.
  destruct ds as [|d' ds].
  - exists 48, [d]. split; [by destruct (x <? 0)%Z|]. split.
    + cbn [forallb] in *. by rewrite Hall.
    + unfold int_of_lexeme. rewrite nat_of_digits_zero, Hval. by rewrite <- Hx.
  - exists d, (d' :: ds). split; [by destruct (x <? 0)%Z|]. split; [exact Hall|].
    unfold int_of_lexeme. rewrite Hval. by rewrite <- Hx.
Qed.

Lemma forallb_take_drop {A} (f : A -> bool) (l : list A) k :
  forallb f l = true -> forallb f (take k l) = true /\ forallb f (drop k l) = true.
Proof.
  intros H. rewrite <- (take_drop k l), forallb_app in H.
  by apply andb_true_iff in H.
Qed.

Lemma drop_zeros_head d ds : d <> 48 -> drop_zeros (d :: ds) = (O, d :: ds).
Proof. intros H. cbn [drop_zeros]. apply N.eqb_neq in H. by rewrite H. Qed.

Lemma strip_trailing_zeros_id ds :
  ds <> [] -> List.last ds 0 <> 48 -> strip_trailing_zeros ds = ds.
Proof.
  intros. rewrite <- (app_nil_r ds) at 1. by apply (strip_trailing_zeros_repeat ds 0).
Qed.

Lemma repeat_zero_digits k : forallb is_digit (repeat 48 k) = true.
Proof. induction k as [|k IH]; [reflexivity|]. cbn [repeat forallb]. by rewrite IH. Qed.

Lemma scan_number_float f rest :
  match f with FFinite _ _ _ => True | _ => False end ->
  wf_float f = true -> is_repr f = true -> stops rest ->
  scan_number (Encoder.float_repr f ++ rest) = Some (PyFloat f, rest).
Proof.
  destruct f as [| |neg ds decpt]; [done..|]. intros _ Hwf Hrepr Hrest.
  cbn [wf_float] in Hwf. apply andb_true_iff in Hwf as [Hall Hshape].
  destruct ds as [|d r]; [done|].
  assert (Hd : is_digit d = true) by (cbn in Hall; by apply andb_true_iff in Hall as [? ?]).
  assert (Hr : forallb is_digit r = true) by (cbn in Hall; by apply andb_true_iff in Hall as [? ?]).
  unfold Encoder.float_repr. rewrite <- !app_assoc.
  set (n := Z.of_nat (length (d :: r))).
  destruct (d =? 48) eqn:Ed.
  { (* zero *)
    apply N.eqb_eq in Ed. subst d.
    apply andb_true_iff in Hshape as [Hnil Hpt].
    apply bool_decide_eq_true in Hnil. apply Z.eqb_eq in Hpt. subst r decpt.
    change ((if neg then [ch "-"] else []) ++ [48] ++ frac_text [48] ++ exp_text None ++ rest)
      with ((if neg then [ch "-"] else []) ++ 48 :: [] ++ frac_text [48] ++ exp_text None ++ rest).
    exact (scan_number_lexeme neg 48 [] [48] None rest eq_refl eq_refl (fun _ => eq_refl)
             eq_refl I Hrest). }
  assert (Hexact : float_of_decimal neg (d :: r) decpt = FFinite neg (d :: r) decpt).
  { cbn [is_repr] in Hrepr. rewrite Ed in Hrepr. by apply bool_decide_eq_true in Hrepr. }
  apply N.eqb_neq in Ed. apply negb_true_iff, N.eqb_neq in Hshape.
  assert (Hlen : (0 < n)%Z) by (unfold n; cbn [length]; lia).
  destruct ((-4 <? decpt)%Z && (decpt <=? 16)%Z) eqn:Efix.
  - destruct (decpt <=? 0)%Z eqn:E0; [|destruct (n <=? decpt)%Z eqn:En].
    + (* 0.000ddd *)
      apply Z.leb_le in E0.
      pose proof (scan_number_lexeme neg 48 [] (repeat 48 (Z.to_nat (- decpt)) ++ d :: r)
                    None rest eq_refl eq_refl (fun _ => eq_refl)) as H.
      rewrite forallb_app in H. cbn [forallb] in H. rewrite Hd, Hr in H.
      assert (Hz : forallb is_digit (repeat 48 (Z.to_nat (- decpt))) = true).
      { apply repeat_zero_digits. }
      rewrite Hz in H. specialize (H eq_refl I Hrest).
      assert (Hfrac : frac_text (repeat 48 (Z.to_nat (- decpt)) ++ d :: r)
                      = ch "." :: repeat 48 (Z.to_nat (- decpt)) ++ d :: r).
      { destruct (repeat 48 (Z.to_nat (- decpt))); reflexivity. }
      rewrite Hfrac in H. cbn [exp_text app] in H.
      change (T "0.") with [48; ch "."]. cbn [app].
      by_lexeme H.
      f_equal. f_equal. unfold lexeme_value.
      assert (Hv : float_of_lexeme neg [48] (repeat 48 (Z.to_nat (- decpt)) ++ d :: r) 0
                   = FFinite neg (d :: r) decpt).
      { unfold float_of_lexeme.
        change ([48] ++ repeat 48 (Z.to_nat (- decpt)) ++ d :: r)
          with (repeat 48 (S (Z.to_nat (- decpt))) ++ d :: r).
        rewrite drop_zeros_repeat by done.
        rewrite strip_trailing_zeros_id by done.
        etransitivity; [|exact Hexact]. cbv beta iota. f_equal. cbn [length]. lia. }
      rewrite Hv. by destruct (repeat 48 (Z.to_nat (- decpt)) ++ d :: r).
    + (* ddd000.0 *)
      apply Z.leb_le in En.
      pose proof (scan_number_lexeme neg d (r ++ repeat 48 (Z.to_nat (decpt - n))) [48]
                    None rest Hd) as H.
      rewrite forallb_app, Hr in H.
      assert (Hz : forallb is_digit (repeat 48 (Z.to_nat (decpt - n))) = true).
      { apply repeat_zero_digits. }
      rewrite Hz in H. specialize (H eq_refl (fun E => ltac:(done)) eq_refl I Hrest).
      cbn [frac_text exp_text app] in H.
      change (T ".0") with [ch "."; 48]. cbn [app].
      by_lexeme H.
      f_equal. f_equal. unfold lexeme_value. f_equal.
      unfold float_of_lexeme. rewrite <- app_comm_cons, <- app_assoc.
      rewrite drop_zeros_head by done.
      change (d :: r ++ repeat 48 (Z.to_nat (decpt - n)) ++ [48])
        with ((d :: r) ++ repeat 48 (Z.to_nat (decpt - n)) ++ repeat 48 1).
      rewrite <- repeat_app.
      rewrite strip_trailing_zeros_repeat by done.
      etransitivity; [|exact Hexact]. cbv beta iota. f_equal.
      cbn [length]. rewrite length_app, repeat_length. unfold n in *.
      cbn [length] in *. lia.
    + (* dd.ddd *)
      apply Z.leb_gt in E0, En.
      destruct (Z.to_nat decpt) as [|k] eqn:Ek; [lia|].
      cbn [take drop]. 
      destruct (drop k r) as [|f fr] eqn:Edrop.
      { apply (f_equal length) in Edrop. rewrite length_drop in Edrop.
        unfold n in En. cbn [length] in *. lia. }
      destruct (forallb_take_drop is_digit r k Hr) as [Htake Hdrop].
      rewrite Edrop in Hdrop.
      pose proof (scan_number_lexeme neg d (take k r) (f :: fr) None rest Hd Htake
                    (fun E => ltac:(done)) Hdrop I Hrest) as H.
      cbn [frac_text exp_text app] in H. by_lexeme H. f_equal. f_equal. unfold lexeme_value. f_equal.
      unfold float_of_lexeme. cbn [app]. rewrite <- Edrop, take_drop.
      rewrite drop_zeros_head by done.
      rewrite strip_trailing_zeros_id by done.
      etransitivity; [|exact Hexact]. cbv beta iota. f_equal.
      cbn [length]. rewrite length_take.
      apply (f_equal length) in Edrop. rewrite length_drop in Edrop. cbn [length] in Edrop.
      lia.
  - (* d.ddde+XX *)
    destruct (exponent_repr_spec (decpt - 1)) as (eneg & x & eds & Hexp & Hdig & Hval).
    rewrite Hexp.
    assert (Hne : x :: eds <> []) by done.
    pose proof (scan_number_lexeme neg d [] r (Some (eneg, x :: eds)) rest Hd eq_refl
                  (fun _ => eq_refl) Hr (conj Hne Hdig) Hrest) as H.
    cbn [exp_text app] in H.
    assert (Hv : float_of_lexeme neg [d] r (int_of_lexeme eneg (x :: eds))
                 = FFinite neg (d :: r) decpt).
    { unfold float_of_lexeme. cbn [app]. rewrite drop_zeros_head by done.
      rewrite strip_trailing_zeros_id by done. rewrite Hval.
      etransitivity; [|exact Hexact]. cbv beta iota. f_equal. cbn [length]. lia. }
    destruct r as [|f fr].
    + cbn [frac_text app] in H. by_lexeme H. unfold lexeme_value. by rewrite Hv.
    + cbn [frac_text] in H. by_lexeme H. unfold lexeme_value. by rewrite Hv.
Qed.

(** ** Strings *)

Lemma hex_value_digit k : k < 16 -> hex_value (Encoder.hex_digit k) = Some k.
Proof.
  intros Hk. unfold Encoder.hex_digit, hex_value, is_digit.
  destruct (N.ltb_spec k 10).
  - replace ((48 <=? 48 + k) && (48 + k <=? 57)) with true.
    + f_equal. lia.
    + symmetry. apply andb_true_iff. split; apply N.leb_le; lia.
  - replace ((48 <=? 87 + k) && (87 + k <=? 57)) with false.
    + replace ((97 <=? 87 + k) && (87 + k <=? 102)) with true.
      * f_equal. lia.
      * symmetry. apply andb_true_iff. split; apply N.leb_le; lia.
    + symmetry. apply andb_false_iff. right. apply N.leb_gt. lia.
Qed.

Lemma decode_hex4 n tail :
  n < 65536 -> decode_uXXXX (Encoder.hex4 n ++ tail) = Some (n, tail).
Proof.
  intros Hn. unfold Encoder.hex4. cbn [app decode_uXXXX].
  rewrite !hex_value_digit by (apply N.mod_lt; lia).
  f_equal. f_equal.
  pose proof (N.div_mod n 16 ltac:(lia)).
  pose proof (N.div_mod (n / 16) 16 ltac:(lia)).
  pose proof (N.div_mod (n / 16 / 16) 16 ltac:(lia)).
  rewrite !N.Div0.div_div in *.
  change (16 * 16) with 256 in *. change (256 * 16) with 4096 in *.
  assert (n / 4096 < 16) by (apply N.Div0.div_lt_upper_bound; lia).
  rewrite (N.mod_small (n / 4096) 16) by done.
  lia.
Qed.

(** One step of [scanstring], by the kind of what stands at the head. *)
Lemma scanstring_quote fuel rest : scanstring (S fuel) (quote :: rest) = Some ([], rest).
Proof. reflexivity. Qed.

Lemma scanstring_literal fuel c tail :
  c <> quote -> c <> backslash -> 32 <= c ->
  scanstring (S fuel) (c :: tail) = prepend c (scanstring fuel tail).
Proof.
  intros Hq Hb Hc. cbn [scanstring].
  apply N.eqb_neq in Hq, Hb. rewrite Hq, Hb.
  assert ((c <? 32) = false) as -> by (apply N.ltb_ge; lia).
  reflexivity.
Qed.

Lemma scanstring_escape fuel e cp tail :
  e <> ch "u" -> unescape e = Some cp ->
  scanstring (S fuel) (backslash :: e :: tail) = prepend cp (scanstring fuel tail).
Proof.
  intros Hu He. cbn [scanstring].
  change (backslash =? quote) with false. change (backslash =? backslash) with true.
  cbn match. apply N.eqb_neq in Hu. rewrite Hu, He. reflexivity.
Qed.

Lemma scanstring_unicode fuel r1 uni r2 cp r' :
  decode_uXXXX r1 = Some (uni, r2) -> paired uni r2 = Some (cp, r') ->
  scanstring (S fuel) (backslash :: ch "u" :: r1) = prepend cp (scanstring fuel r').
Proof.
  intros Hd Hp. cbn [scanstring].
  change (backslash =? quote) with false. change (backslash =? backslash) with true.
  change (ch "u" =? ch "u") with true. cbn match.
  rewrite Hd. unfold paired in Hp. rewrite Hp. reflexivity.
Qed.

(** The four shapes of the replacement of a character. *)
Lemma escape_char_cases c :
  (exists e, Encoder.escape_char c = [backslash; e] /\ e <> ch "u" /\ unescape e = Some c)
  \/ (Encoder.escape_char c = [c] /\ c <> quote /\ c <> backslash /\ 32 <= c)
  \/ (Encoder.escape_char c = backslash :: ch "u" :: Encoder.hex4 c /\ c < 65536)
  \/ (Encoder.escape_char c
        = backslash :: ch "u" :: Encoder.hex4 (high_of c)
            ++ backslash :: ch "u" :: Encoder.hex4 (low_of c)
      /\ 65536 <= c).
Proof.
  unfold Encoder.escape_char.
  destruct (N.eqb_spec c quote) as [->|Hq]; [left; by exists quote|].
  destruct (N.eqb_spec c backslash) as [->|Hb]; [left; by exists backslash|].
  destruct (N.eqb_spec c 10) as [->|?]; [left; by exists (ch "n")|].
  destruct (N.eqb_spec c 13) as [->|?]; [left; by exists (ch "r")|].
  destruct (N.eqb_spec c 9) as [->|?]; [left; by exists (ch "t")|].
  destruct (N.eqb_spec c 12) as [->|?]; [left; by exists (ch "f")|].
  destruct (N.eqb_spec c 8) as [->|?]; [left; by exists (ch "b")|].
  destruct ((32 <=? c) && (c <=? 126)) eqn:E.
  { right. left. apply andb_true_iff in E as [E _]. apply N.leb_le in E. done. }
  destruct (N.ltb_spec c 65536); [right; right; left; done|].
  right. right. right. done.
Qed.

Lemma high_of_spec c :
  65536 <= c -> c < 1114112 ->
  high_of c < 65536 /\ is_high_surrogate (high_of c) = true
  /\ is_low_surrogate (high_of c) = false.
Proof.
  intros H1 H2. unfold high_of, is_high_surrogate, is_low_surrogate.
  pose proof (N.mod_lt ((c - 65536) / 1024) 1024 ltac:(lia)).
  generalize dependent ((c - 65536) / 1024 mod 1024). intros x Hx.
  split; [lia|]. split.
  - apply andb_true_iff. split; apply N.leb_le; lia.
  - apply andb_false_iff. left. apply N.leb_gt. lia.
Qed.

Lemma low_of_spec c :
  65536 <= c -> c < 1114112 ->
  low_of c < 65536 /\ is_low_surrogate (low_of c) = true
  /\ join_surrogates (high_of c) (low_of c) = c.
Proof.
  intros H1 H2. unfold low_of, high_of, is_low_surrogate, join_surrogates.
  pose proof (N.mod_lt (c - 65536) 1024 ltac:(lia)) as Hm.
  assert (Hd : (c - 65536) / 1024 < 1024) by (apply N.Div0.div_lt_upper_bound; lia).
  rewrite (N.mod_small ((c - 65536) / 1024) 1024) by done.
  pose proof (N.div_mod (c - 65536) 1024 ltac:(lia)) as Hdm.
  generalize dependent ((c - 65536) mod 1024). intros y Hy.
  generalize dependent ((c - 65536) / 1024). intros x Hx Hxy.
  split; [lia|]. split.
  - apply andb_true_iff. split; apply N.leb_le; lia.
  - lia.
Qed.

(** What follows an escape in the encoding of a string never completes a
    surrogate pair that the string does not hold. *)
Lemma paired_alone c s rest :
  wf_str (c :: s) = true ->
  paired c (escaped s ++ quote :: rest) = Some (c, escaped s ++ quote :: rest).
Proof.
  intros Hwf. unfold paired.
  destruct (is_high_surrogate c) eqn:Ehigh; [|reflexivity]. cbn [andb].
  destruct s as [|c' s]; [reflexivity|].
  unfold wf_str in Hwf. cbn [forallb no_surrogate_pair] in Hwf.
  rewrite Ehigh in Hwf. cbn [andb] in Hwf.
  apply andb_true_iff in Hwf as [Hcp Hpair].
  apply andb_true_iff in Hcp as [_ Hcp]. apply andb_true_iff in Hcp as [Hc' _].
  apply andb_true_iff in Hpair as [Hlow _]. apply negb_true_iff in Hlow.
  apply N.ltb_lt in Hc'.
  unfold escaped. cbn [map concat].
  destruct (escape_char_cases c') as [(e & -> & Hu & _)|[(-> & _ & Hb & _)|[[-> Hlt]|[-> Hge]]]].
  - cbn [app starts_with].
    assert ((ch "u" =? e) = false) as -> by (apply N.eqb_neq; congruence).
    by rewrite andb_false_r.
  - cbn [app starts_with].
    assert ((backslash =? c') = false) as -> by (apply N.eqb_neq; congruence).
    reflexivity.
  - cbn [app starts_with]. change (backslash =? backslash) with true.
    change (ch "u" =? ch "u") with true. cbn [andb drop].
    change (drop 0 ?l) with l.
    rewrite <- app_assoc, decode_hex4 by done. by rewrite Hlow.
  - destruct (high_of_spec c' Hge Hc') as (Hhi & _ & Hnl).
    cbn [app starts_with]. change (backslash =? backslash) with true.
    change (ch "u" =? ch "u") with true. cbn [andb drop].
    change (drop 0 ?l) with l.
    rewrite <- !app_assoc, decode_hex4 by done. by rewrite Hnl.
Qed.

Lemma length_escape_char c : (1 <= length (Encoder.escape_char c))%nat.
Proof.
  destruct (escape_char_cases c) as [(e & -> & _)|[(-> & _)|[[-> _]|[-> _]]]];
    cbn [length]; lia.
Qed.

(** Scanning the encoding of a string gives the string back. *)
Lemma scanstring_escaped s : forall fuel rest,
  wf_str s = true -> (length (escaped s) < fuel)%nat ->
  scanstring fuel (escaped s ++ quote :: rest) = Some (s, rest).
Proof.
  induction s as [|c s IH]; intros fuel rest Hwf Hfuel.
  - destruct fuel; [cbn in Hfuel; lia|]. reflexivity.
  - assert (Hwf' : wf_str s = true).
    { unfold wf_str in *. cbn [forallb no_surrogate_pair] in Hwf.
      apply andb_true_iff in Hwf as [H1 H2].
      apply andb_true_iff in H1 as [_ H1]. apply andb_true_iff in H2 as [_ H2].
      by rewrite H1, H2. }
    assert (Hc : c < 1114112).
    { unfold wf_str in Hwf. cbn [forallb] in Hwf.
      apply andb_true_iff in Hwf as [H1 _]. apply andb_true_iff in H1 as [H1 _].
      by apply N.ltb_lt. }
    pose proof (paired_alone c s rest Hwf) as Halone.
    unfold escaped in *. cbn [map concat] in *. rewrite length_app in Hfuel.
    pose proof (length_escape_char c) as Hlen.
    destruct fuel as [|fuel]; [lia|].
    assert (Hrec : scanstring fuel (concat (map Encoder.escape_char s) ++ quote :: rest)
                   = Some (s, rest)) by (apply IH; [done|lia]).
    rewrite <- app_assoc.
    destruct (escape_char_cases c) as [(e & He & Hu & Hun)|[(He & Hq & Hb & H32)|[[He Hlt]|[He Hge]]]];
      rewrite He in *; cbn [app length] in *.
    + rewrite (scanstring_escape fuel e c) by done. by rewrite Hrec.
    + rewrite scanstring_literal by done. by rewrite Hrec.
    + rewrite (scanstring_unicode fuel _ c _ c _ (decode_hex4 c _ Hlt) Halone).
      by rewrite Hrec.
    + destruct (high_of_spec c Hge Hc) as (Hhi & Hishi & _).
      destruct (low_of_spec c Hge Hc) as (Hlo & Hislo & Hjoin).
      rewrite <- app_assoc. cbn [app].
      erewrite (scanstring_unicode fuel _ (high_of c) _ c
                  (concat (map Encoder.escape_char s) ++ quote :: rest)
                  (decode_hex4 (high_of c) _ Hhi)).
      * by rewrite Hrec.
      * unfold paired. rewrite Hishi. cbn [starts_with andb drop].
        change (backslash =? backslash) with true.
        change (ch "u" =? ch "u") with true. cbn [andb].
        change (drop 0 ?l) with l.
        rewrite decode_hex4 by done. by rewrite Hislo, Hjoin.
Qed.

(** ** The tokenizer on an encoding *)

Lemma lexes_end : lexes [] [].
Proof. intros [|f] Hf; [cbn in Hf; lia|reflexivity]. Qed.

Lemma skip_ws_app w s : forallb is_ws w = true -> skip_ws (w ++ s) = skip_ws s.
Proof.
  induction w as [|c w IH]; [reflexivity|]. cbn [forallb app skip_ws].
  intros H. apply andb_true_iff in H as [-> H]. auto.
Qed.

Lemma lex_skip_ws f s : lex f (skip_ws s) = lex f s.
Proof.
  destruct f; [reflexivity|]. cbn [lex].
  assert (skip_ws (skip_ws s) = skip_ws s) as ->; [|reflexivity].
  induction s as [|c s IH]; [reflexivity|]. cbn [skip_ws].
  destruct (is_ws c) eqn:E; [exact IH|]. cbn [skip_ws]. by rewrite E.
Qed.

Lemma lexes_ws w s ts : forallb is_ws w = true -> lexes s ts -> lexes (w ++ s) ts.
Proof.
  intros Hw Hs f Hf. rewrite <- lex_skip_ws, skip_ws_app, lex_skip_ws by done.
  apply Hs. rewrite length_app in Hf. lia.
Qed.

Lemma lexes_token c r t rest ts :
  is_ws c = false -> scan_once c r = Some (t, rest) -> (length rest <= length r)%nat ->
  lexes rest ts -> last_token t = false -> lexes (c :: r) (t :: ts).
Proof.
  intros Hc Hscan Hlen Hrest Hlast [|f] Hf; [lia|]. cbn [lex skip_ws].
  rewrite Hc, Hscan, Hlast.
  rewrite Hrest; [reflexivity|]. cbn [length] in Hf. lia.
Qed.

Lemma lexes_char c t s ts :
  (c, t) ∈ [(ch "{", TLBrace); (ch "}", TRBrace); (ch "[", TLBracket);
            (ch "]", TRBracket); (ch ",", TComma); (ch ":", TColon)] ->
  lexes s ts -> lexes (c :: s) (t :: ts).
Proof.
  intros Hin Hs. apply (lexes_token c s t s); [| |lia|done|];
    repeat (apply elem_of_cons in Hin as [[= -> ->]|Hin]; [reflexivity|]);
    by apply elem_of_nil in Hin.
Qed.

(** *** Atoms *)

Lemma digit_cases c :
  is_digit c = true ->
  c ∈ [48; 49; 50; 51; 52; 53; 54; 55; 56; 57].
Proof.
  unfold is_digit. intros H. apply andb_true_iff in H as [H1 H2].
  apply N.leb_le in H1, H2.
  assert (c = 48 \/ c = 49 \/ c = 50 \/ c = 51 \/ c = 52 \/ c = 53 \/ c = 54
          \/ c = 55 \/ c = 56 \/ c = 57) as Hc by lia.
  repeat (destruct Hc as [->|Hc]; [set_solver|]). subst. set_solver.
Qed.

Lemma scan_once_number c r v rest :
  scan_number (c :: r) = Some (v, rest) -> overlong v = false ->
  is_ws c = false /\ scan_once c r = Some (TAtom v, rest).
Proof.
  intros H Hov.
  assert (Hc : c ∈ [ch "-"; 48; 49; 50; 51; 52; 53; 54; 55; 56; 57]).
  { destruct (N.eqb_spec c (ch "-")) as [->|Hm]; [set_solver|].
    apply elem_of_cons. right. apply digit_cases.
    unfold scan_number, scan_sign in H. apply N.eqb_neq in Hm. rewrite Hm in H.
    cbn [scan_int] in H. by destruct (is_digit c). }
  repeat (apply elem_of_cons in Hc as [->|Hc];
          [split; [reflexivity|]; unfold scan_once; rewrite H, Hov; reflexivity|]).
  by apply elem_of_nil in Hc.
Qed.

Lemma lexes_number text v rest ts :
  text <> [] -> scan_number (text ++ rest) = Some (v, rest) -> overlong v = false ->
  lexes rest ts -> lexes (text ++ rest) (TAtom v :: ts).
Proof.
  intros Hne Hscan Hov Hrest.
  assert (Hlen : (length rest < length (text ++ rest))%nat).
  { rewrite length_app. destruct text; [done|]. cbn [length]. lia. }
  destruct (text ++ rest) as [|c r]; [cbn in Hlen; lia|].
  destruct (scan_once_number c r v rest Hscan Hov) as [Hws Hone].
  apply (lexes_token c r _ rest); [done|done| |done|done]. cbn [length] in Hlen. lia.
Qed.

Lemma lexes_string s rest ts :
  wf_str s = true -> lexes rest ts ->
  lexes (Encoder.encode_basestring_ascii s ++ rest) (TAtom (PyStr s) :: ts).
Proof.
  intros Hwf Hrest. unfold Encoder.encode_basestring_ascii.
  rewrite <- app_comm_cons, <- app_assoc. cbn [app].
  apply (lexes_token quote _ _ rest); [reflexivity| | |done|done].
  - unfold scan_once. change (quote =? quote) with true. cbn match.
    fold (escaped s). rewrite scanstring_escaped; [reflexivity|done|].
    rewrite length_app. lia.
  - rewrite length_app. cbn [length]. lia.
Qed.

Lemma float_repr_nonempty f : wf_float f = true -> Encoder.float_repr f <> [].
Proof.
  destruct f as [|[]|neg ds decpt]; [done..|]. cbn [wf_float]. intros H.
  apply andb_true_iff in H as [_ H]. destruct ds as [|d r]; [done|].
  unfold Encoder.float_repr.
  destruct neg; [done|]. cbn [app].
  repeat match goal with |- context [if ?b then _ else _] => destruct b end;
    try done; try (destruct (Z.to_nat decpt); done); destruct r; done.
Qed.

Lemma int_repr_nonempty z : Encoder.int_repr z <> [].
Proof.
  destruct z as [|p|p]; [done| |done]. unfold Encoder.int_repr.
  destruct (to_uint_shape (Z.to_N (Z.pos p))) as (d & ds & -> & _). done.
Qed.

Lemma lexes_atom v indent lvl rest ts :
  is_atom v -> wf v = true -> reprs v = true -> stops rest -> lexes rest ts ->
  lexes (Encoder.encode indent lvl v ++ rest) (TAtom v :: ts).
Proof.
  intros Hatom Hwf Hrepr Hstop Hrest.
  destruct v as [|[]|z|f|s|l|d]; try done; cbn [Encoder.encode wf reprs] in *.
  - apply (lexes_token (ch "n") (T "ull" ++ rest) _ rest); [done|done| |done|done].
    rewrite length_app. lia.
  - apply (lexes_token (ch "t") (T "rue" ++ rest) _ rest); [done|done| |done|done].
    rewrite length_app. lia.
  - apply (lexes_token (ch "f") (T "alse" ++ rest) _ rest); [done|done| |done|done].
    rewrite length_app. lia.
  - apply lexes_number;
      [apply int_repr_nonempty|by apply scan_number_int|by apply negb_true_iff|done].
  - destruct f as [|[]|neg ds decpt].
    + apply (lexes_token (ch "N") (T "aN" ++ rest) _ rest); [done|done| |done|done].
      rewrite length_app. lia.
    + apply (lexes_token (ch "-") (T "Infinity" ++ rest) _ rest); [done|done| |done|done].
      rewrite length_app. lia.
    + apply (lexes_token (ch "I") (T "nfinity" ++ rest) _ rest); [done|done| |done|done].
      rewrite length_app. lia.
    + apply lexes_number; [by apply float_repr_nonempty| |done|done].
      by apply scan_number_float.
  - by apply lexes_string.
Qed.

(** *** Induction on values *)

(** *** Sorted items *)

Lemma insert_item_map {A B} (f : A -> B) kv (l : list (list N * A)) :
  Encoder.insert_item (fst kv, f (snd kv)) (map (fun kv => (fst kv, f (snd kv))) l)
    = map (fun kv => (fst kv, f (snd kv))) (Encoder.insert_item kv l).
Proof.
  induction l as [|kv' l IH]; [reflexivity|]. cbn [map Encoder.insert_item fst].
  destruct (Encoder.text_leb (fst kv) (fst kv')); [reflexivity|].
  cbn [map]. by rewrite IH.
Qed.

Lemma sorted_items_map {A B} (f : A -> B) (d : list (list N * A)) :
  Encoder.sorted_items (map (fun kv => (fst kv, f (snd kv))) d)
    = map (fun kv => (fst kv, f (snd kv))) (Encoder.sorted_items d).
Proof.
  unfold Encoder.sorted_items. induction d as [|kv d IH]; [reflexivity|].
  cbn [map foldr]. rewrite IH. apply insert_item_map.
Qed.

Lemma insert_item_perm {A} (kv : list N * A) l : Encoder.insert_item kv l ≡ₚ kv :: l.
Proof.
  induction l as [|kv' l IH]; [reflexivity|]. cbn [Encoder.insert_item].
  destruct (Encoder.text_leb _ _); [reflexivity|]. rewrite IH. apply Permutation_swap.
Qed.

Lemma sorted_items_perm {A} (d : list (list N * A)) : Encoder.sorted_items d ≡ₚ d.
Proof.
  unfold Encoder.sorted_items. induction d as [|kv d IH]; [reflexivity|].
  cbn [foldr]. by rewrite insert_item_perm, IH.
Qed.

Lemma sorted_items_nil {A} (d : list (list N * A)) : Encoder.sorted_items d = [] -> d = [].
Proof.
  intros H. apply Permutation_nil_r. rewrite <- H. symmetry. apply sorted_items_perm.
Qed.

(** *** Sequences of encodings *)

Lemma delimiter_stops s : delimiter s -> stops s.
Proof.
  destruct s as [|c s]; [done|]. cbn. intros H.
  repeat (apply elem_of_cons in H as [->|H]; [done|]). by apply elem_of_nil in H.
Qed.

Lemma lexes_join {A} (txt : A -> list N) (tok : A -> list token) (l : list A) w tail ts :
  Forall (fun a => forall rest ts', delimiter rest -> lexes rest ts' ->
                     lexes (txt a ++ rest) (tok a ++ ts')) l ->
  l <> [] -> forallb is_ws w = true -> delimiter tail -> lexes tail ts ->
  lexes (Encoder.join (ch "," :: w) (map txt l) ++ tail) (sep_tokens (map tok l) ++ ts).
Proof.
  intros Hall Hne Hw Htail Hts. induction Hall as [|a l Ha Hall IH]; [done|].
  destruct l as [|b l].
  - cbn [map Encoder.join sep_tokens]. by apply Ha.
  - change (Encoder.join (ch "," :: w) (map txt (a :: b :: l)))
      with (txt a ++ (ch "," :: w) ++ Encoder.join (ch "," :: w) (map txt (b :: l))).
    change (sep_tokens (map tok (a :: b :: l)))
      with (tok a ++ TComma :: sep_tokens (map tok (b :: l))).
    rewrite <- !app_assoc. cbn [app].
    apply Ha; [cbn; set_solver|].
    apply lexes_char; [set_solver|]. apply lexes_ws; [done|]. by apply IH.
Qed.

Lemma newline_indent_ws indent lvl : forallb is_ws (Encoder.newline_indent indent lvl) = true.
Proof.
  destruct indent as [n|]; [|reflexivity]. cbn [Encoder.newline_indent forallb].
  induction (n * lvl)%nat; [reflexivity|]. cbn [repeat forallb]. done.
Qed.

Lemma key_separator_spec indent :
  exists w, Encoder.key_separator indent = ch ":" :: w /\ forallb is_ws w = true.
Proof. destruct indent; eexists; split; reflexivity. Qed.

(** The tokenizer makes the tokens of a value of its encoding. *)
Lemma lexes_encode indent v : forall lvl rest ts,
  wf v = true -> reprs v = true -> delimiter rest -> lexes rest ts ->
  lexes (Encoder.encode indent lvl v ++ rest) (tokens v ++ ts).
Proof.
  induction v as [|b|z|f|s|l IH|d IH] using pyvalue_nested_ind;
    intros lvl rest ts Hwf Hrepr Hdel Hrest;
    try (apply (lexes_atom _ indent lvl rest ts);
         [done|done|done|by apply delimiter_stops|done]).
  - (* a list *)
    destruct l as [|x l].
    + apply (lexes_char (ch "[") TLBracket); [set_solver|].
      apply (lexes_char (ch "]") TRBracket); [set_solver|done].
    + cbn [Encoder.encode tokens].
      rewrite <- !app_comm_cons, <- !app_assoc.
      apply lexes_char; [set_solver|]. apply lexes_ws; [apply newline_indent_ws|].
      apply lexes_join; [|done|apply newline_indent_ws| |].
      * cbn [wf reprs] in Hwf, Hrepr. rewrite forallb_forall in Hwf, Hrepr.
        rewrite List.Forall_forall in *. intros a Ha rest' ts' Hd Hl. apply IH; auto.
      * destruct indent; cbn; set_solver.
      * apply lexes_ws; [apply newline_indent_ws|].
        apply lexes_char; [set_solver|done].
  - (* a dict *)
    destruct d as [|kv d].
    + apply (lexes_char (ch "{") TLBrace); [set_solver|].
      apply (lexes_char (ch "}") TRBrace); [set_solver|done].
    + cbn [Encoder.encode tokens].
      rewrite (sorted_items_map (Encoder.encode indent (S lvl))).
      rewrite (sorted_items_map tokens).
      rewrite !map_map. cbn [fst snd].
      rewrite <- !app_comm_cons, <- !app_assoc.
      apply lexes_char; [set_solver|]. apply lexes_ws; [apply newline_indent_ws|].
      apply (lexes_join
               (fun kv => Encoder.encode_basestring_ascii (fst kv)
                            ++ Encoder.key_separator indent
                            ++ Encoder.encode indent (S lvl) (snd kv))
               (fun kv => TAtom (PyStr (fst kv)) :: TColon :: tokens (snd kv))).
      * cbn [wf reprs] in Hwf, Hrepr. apply andb_true_iff in Hwf as [_ Hwf].
        rewrite forallb_forall in Hwf, Hrepr.
        rewrite List.Forall_forall in *. intros a Ha rest' ts' Hd Hl.
        assert (Hin : In a (kv :: d)).
        { eapply Permutation_in; [apply sorted_items_perm|done]. }
        specialize (Hwf a Hin). apply andb_true_iff in Hwf as [Hk Hv].
        specialize (Hrepr a Hin).
        rewrite <- !app_assoc. cbn [app].
        apply lexes_string; [done|].
        destruct (key_separator_spec indent) as (w & -> & Hw).
        rewrite <- app_comm_cons.
        apply lexes_char; [set_solver|]. apply lexes_ws; [done|].
        apply IH; auto.
      * intros H. by apply sorted_items_nil in H.
      * apply newline_indent_ws.
      * destruct indent; cbn; set_solver.
      * apply lexes_ws; [apply newline_indent_ws|].
        apply lexes_char; [set_solver|done].
Qed.

(** ** The parser on the tokens of a value *)

Lemma tokens_head v : exists t ts, tokens v = t :: ts /\ opens_value t.
Proof.
  destruct v as [| | | | |[|x l]|[|kv d]]; cbn [tokens]; eexists _, _; split;
    try reflexivity; done.
Qed.

Lemma text_eqb_eq a b : text_eqb a b = true <-> a = b.
Proof. unfold text_eqb. apply bool_decide_eq_true. Qed.

(** dict(pairs) keeps pairs of distinct keys as they are. *)
Lemma dict_set_fresh {A} (d : list (list N * A)) k v :
  k ∉ map fst d -> dict_set d k v = d ++ [(k, v)].
Proof.
  induction d as [|[k' v'] d IH]; intros Hk; [reflexivity|].
  cbn [dict_set map fst] in *. apply not_elem_of_cons in Hk as [Hne Hk].
  destruct (text_eqb k' k) eqn:E.
  - apply text_eqb_eq in E. congruence.
  - cbn [app]. by rewrite IH.
Qed.

Lemma dict_of_pairs_nodup {A} (ps : list (list N * A)) :
  NoDup (map fst ps) -> dict_of_pairs ps = ps.
Proof.
  unfold dict_of_pairs.
  assert (H : forall acc, NoDup (map fst (acc ++ ps)) ->
                fold_left (fun d kv => dict_set d (fst kv) (snd kv)) ps acc = acc ++ ps).
  { induction ps as [|[k v] ps IH]; intros acc Hnd; cbn [fold_left].
    - by rewrite app_nil_r.
    - cbn [fst snd]. rewrite dict_set_fresh.
      + rewrite IH; rewrite <- app_assoc; [reflexivity|done].
      + rewrite map_app in Hnd. cbn [map fst] in Hnd.
        apply NoDup_app in Hnd as (_ & Hnd & _). intros Hin.
        apply (Hnd k Hin). set_solver. }
  intros Hnd. by apply (H []).
Qed.

Lemma length_tokens_pos v : (0 < length (tokens v))%nat.
Proof. destruct (tokens_head v) as (t & ts & -> & _). cbn [length]. lia. Qed.

Lemma nesting_element (l : list pyvalue) a :
  In a l -> nesting a <= fold_right (fun x n => N.max (nesting x) n) 0 l.
Proof.
  induction l as [|x l IH]; [done|]. cbn [In fold_right]. intros [->|H]; [lia|].
  specialize (IH H). lia.
Qed.

Lemma nesting_member (d : list (list N * pyvalue)) a :
  In a d -> nesting (snd a) <= fold_right (fun kv n => N.max (nesting (snd kv)) n) 0 d.
Proof.
  induction d as [|x d IH]; [done|]. cbn [In fold_right]. intros [->|H]; [lia|].
  specialize (IH H). lia.
Qed.

Lemma nesting_members_perm (d d' : list (list N * pyvalue)) :
  d ≡ₚ d' ->
  fold_right (fun kv n => N.max (nesting (snd kv)) n) 0 d
    = fold_right (fun kv n => N.max (nesting (snd kv)) n) 0 d'.
Proof.
  induction 1 as [|x l l' _ IH|x y l|l l' l'' _ IH1 _ IH2]; cbn [fold_right];
    [reflexivity|by rewrite IH|lia|congruence].
Qed.

Lemma parse_elements_tokens (l : list pyvalue) depth :
  Forall (fun v => forall fuel rest, (2 * length (tokens v) <= fuel)%nat ->
                     parse_value fuel depth (tokens v ++ rest) = Return (canon v, rest)) l ->
  l <> [] ->
  forall fuel rest,
    (2 * length (sep_tokens (map tokens l)) < fuel)%nat ->
    parse_elements fuel depth (sep_tokens (map tokens l) ++ TRBracket :: rest)
      = Return (map canon l, rest).
Proof.
  intros Hall Hne. induction Hall as [|x l Hx Hall IH]; [done|].
  intros fuel rest Hfuel. destruct fuel as [|fuel]; [lia|].
  destruct l as [|y l].
  - cbn [map sep_tokens] in *. cbn [parse_elements].
    rewrite Hx by lia. reflexivity.
  - change (sep_tokens (map tokens (x :: y :: l)))
      with (tokens x ++ TComma :: sep_tokens (map tokens (y :: l))) in *.
    rewrite length_app in Hfuel. cbn [length] in Hfuel.
    rewrite <- app_assoc. cbn [app parse_elements].
    rewrite Hx by lia. rewrite IH by (done || lia). reflexivity.
Qed.

Lemma parse_members_tokens (d : list (list N * pyvalue)) depth :
  Forall (fun kv => forall fuel rest, (2 * length (tokens (snd kv)) <= fuel)%nat ->
                      parse_value fuel depth (tokens (snd kv) ++ rest)
                        = Return (canon (snd kv), rest)) d ->
  d <> [] ->
  forall fuel rest,
    (2 * length (sep_tokens
                   (map (fun kv => TAtom (PyStr (fst kv)) :: TColon :: tokens (snd kv)) d))
       < fuel)%nat ->
    parse_members fuel depth
      (sep_tokens (map (fun kv => TAtom (PyStr (fst kv)) :: TColon :: tokens (snd kv)) d)
         ++ TRBrace :: rest)
      = Return (map (fun kv => (fst kv, canon (snd kv))) d, rest).
Proof.
  intros Hall Hne. induction Hall as [|x l Hx Hall IH]; [done|].
  intros fuel rest Hfuel. destruct fuel as [|fuel]; [lia|].
  destruct l as [|y l].
  - cbn [map sep_tokens] in *. cbn [app parse_members]. cbn [length] in Hfuel.
    rewrite Hx by lia. reflexivity.
  - change (sep_tokens (map ?f (x :: y :: l)))
      with (f x ++ TComma :: sep_tokens (map f (y :: l))) in *.
    cbn beta in *. rewrite length_app in Hfuel. cbn [length] in Hfuel.
    rewrite <- app_assoc. cbn [app parse_members].
    rewrite Hx by lia. rewrite IH by (done || lia). reflexivity.
Qed.

(** The parser makes of the tokens of a value the value, its objects in
    the order of their keys, when the arrays and objects that are open and
    those of the value stay within the recursion limit. *)
Lemma parse_value_tokens v : forall fuel depth rest,
  wf v = true -> depth + nesting v <= recursion_limit ->
  (2 * length (tokens v) <= fuel)%nat ->
  parse_value fuel depth (tokens v ++ rest) = Return (canon v, rest).
Proof.
  induction v as [|b|z|f|s|l IH|d IH] using pyvalue_nested_ind;
    intros fuel depth rest Hwf Hdepth Hfuel;
    try (destruct fuel; [cbn in Hfuel; lia|reflexivity]).
  - assert (Hopen : (recursion_limit <=? depth) = false).
    { apply N.leb_gt. cbn [nesting] in Hdepth. lia. }
    destruct l as [|x l].
    + destruct fuel; [cbn in Hfuel; lia|]. cbn [tokens app parse_value].
      by rewrite Hopen.
    + cbn [tokens canon] in *. destruct fuel as [|fuel]; [cbn in Hfuel; lia|].
      cbn [length] in Hfuel. rewrite length_app in Hfuel. cbn [length] in Hfuel.
      rewrite <- app_comm_cons, <- app_assoc. cbn [app].
      assert (Hel : parse_elements fuel (depth + 1)
                (sep_tokens (map tokens (x :: l)) ++ TRBracket :: rest)
              = Return (map canon (x :: l), rest)).
      { apply parse_elements_tokens; [|done|lia].
        cbn [wf] in Hwf. rewrite forallb_forall in Hwf.
        rewrite List.Forall_forall in *. intros a Ha fuel' rest' Hf. apply IH; auto.
        pose proof (nesting_element (x :: l) a Ha). cbn [nesting] in Hdepth. lia. }
      destruct (tokens_head x) as (t & ts & Ht & Hopens).
      assert (Hshape : exists ts', sep_tokens (map tokens (x :: l)) ++ TRBracket :: rest
                                   = t :: ts').
      { cbn [map]. destruct l; cbn [map sep_tokens]; rewrite Ht; eexists; reflexivity. }
      destruct Hshape as [ts' Hshape]. rewrite Hshape in *.
      cbn [parse_value]. rewrite Hopen, Hel. by destruct t.
  - assert (Hopen : (recursion_limit <=? depth) = false).
    { apply N.leb_gt. cbn [nesting] in Hdepth. lia. }
    destruct d as [|kv d].
    + destruct fuel; [cbn in Hfuel; lia|]. cbn [tokens app parse_value].
      by rewrite Hopen.
    + cbn [tokens canon] in *. rewrite (sorted_items_map tokens) in *.
      rewrite (sorted_items_map canon).
      rewrite map_map in *. cbn [fst snd] in *.
      destruct fuel as [|fuel]; [cbn in Hfuel; lia|].
      cbn [length] in Hfuel. rewrite length_app in Hfuel. cbn [length] in Hfuel.
      rewrite <- app_comm_cons, <- app_assoc. cbn [app].
      cbn [wf] in Hwf. apply andb_true_iff in Hwf as [Hnd Hwf].
      apply bool_decide_eq_true in Hnd.
      set (d' := Encoder.sorted_items (kv :: d)) in *.
      assert (Hperm : d' ≡ₚ kv :: d) by apply sorted_items_perm.
      assert (Hmem : parse_members fuel (depth + 1)
                (sep_tokens
                   (map (fun kv => TAtom (PyStr (fst kv)) :: TColon :: tokens (snd kv)) d')
                   ++ TRBrace :: rest)
              = Return (map (fun kv => (fst kv, canon (snd kv))) d', rest)).
      { apply parse_members_tokens; [| |lia].
        - rewrite forallb_forall in Hwf.
          rewrite List.Forall_forall in *. intros a Ha fuel' rest' Hf.
          assert (Hin : In a (kv :: d)) by (eapply Permutation_in; done).
          specialize (Hwf a Hin). apply andb_true_iff in Hwf as [_ Hv].
          apply IH; auto.
          pose proof (nesting_member (kv :: d) a Hin). cbn [nesting] in Hdepth. lia.
        - intros H. rewrite H in Hperm. by apply Permutation_nil_l in Hperm. }
      assert (Hshape : exists k ts',
                 sep_tokens
                   (map (fun kv => TAtom (PyStr (fst kv)) :: TColon :: tokens (snd kv)) d')
                   ++ TRBrace :: rest = TAtom (PyStr k) :: ts').
      { destruct d' as [|a [|b d']]; [by apply Permutation_nil_l in Hperm|..];
          cbn [map sep_tokens app]; eexists _, _; reflexivity. }
      destruct Hshape as (k & ts' & Hshape). rewrite Hshape in *.
      cbn [parse_value]. rewrite Hopen, Hmem. f_equal. f_equal. f_equal.
      apply dict_of_pairs_nodup. rewrite map_map. cbn [fst].
      change (fun x : list N * pyvalue => x.1) with (@fst (list N) pyvalue).
      by rewrite (Permutation_map fst Hperm).
Qed.

(** ** Decoding an encoding *)

Lemma lex_bom f r : lex (S f) (BOM :: r) = Some [TJunk].
Proof. reflexivity. Qed.

Lemma starts_with_bom s : starts_with [BOM] s = true -> exists r, s = BOM :: r.
Proof.
  destruct s as [|c r]; [done|]. cbn [starts_with]. rewrite andb_true_r.
  intros H. apply N.eqb_eq in H. subst. by exists r.
Qed.

Lemma ws_delimiter w : forallb is_ws w = true -> delimiter w.
Proof.
  destruct w as [|c w]; [done|]. cbn [forallb delimiter]. intros H.
  apply andb_true_iff in H as [H _]. unfold is_ws in H.
  repeat (apply orb_true_iff in H as [H|H]); apply N.eqb_eq in H; subst; set_solver.
Qed.

(** Decoding what the encoder wrote, with any whitespace before and after
    it, gives the value back, its objects in the order of their keys: for a
    value whose floats bear the names of [repr] and which is nested within the
    recursion limit. *)
Theorem loads_dumps_ws indent v w1 w2 :
  wf v = true -> reprs v = true -> nesting v <= recursion_limit ->
  forallb is_ws w1 = true -> forallb is_ws w2 = true ->
  loads (w1 ++ dumps indent v ++ w2) = Return (canon v).
Proof.
  intros Hwf Hrepr Hdepth Hw1 Hw2. unfold loads, dumps.
  assert (Hlex : lexes (w1 ++ Encoder.encode indent 0 v ++ w2) (tokens v ++ [])).
  { apply lexes_ws; [done|].
    apply lexes_encode; [done|done|by apply ws_delimiter|].
    rewrite <- (app_nil_r w2). apply lexes_ws; [done|apply lexes_end]. }
  rewrite app_nil_r in Hlex.
  specialize (Hlex (S (length (w1 ++ Encoder.encode indent 0 v ++ w2))) ltac:(lia)).
  destruct (starts_with [BOM] _) eqn:Ebom.
  { apply starts_with_bom in Ebom as [r Er]. rewrite Er in Hlex.
    rewrite lex_bom in Hlex. destruct (tokens_head v) as (t & ts & Ht & Hopens).
    rewrite Ht in Hlex. injection Hlex as <- _. done. }
  rewrite Hlex.
  pose proof (parse_value_tokens v (S (2 * length (tokens v))) 0 [] Hwf ltac:(lia)
                ltac:(lia)) as Hp.
  rewrite app_nil_r in Hp. by rewrite Hp.
Qed.

Theorem loads_dumps indent v w :
  wf v = true -> reprs v = true -> nesting v <= recursion_limit ->
  forallb is_ws w = true ->
  loads (dumps indent v ++ w) = Return (canon v).
Proof. intros Hwf Hrepr Hdepth Hw. by apply (loads_dumps_ws indent v []). Qed.

(** ** What the decoder makes is well formed *)

Lemma scanstring_eq fuel c r :
  scanstring (S fuel) (c :: r) =
    if c =? quote then Some ([], r)
    else if c =? backslash then
      match r with
      | [] => None
      | e :: r1 =>
          if e =? ch "u" then
            match decode_uXXXX r1 with
            | None => None
            | Some (uni, r2) =>
                match paired uni r2 with
                | None => None
                | Some (cp, r') => prepend cp (scanstring fuel r')
                end
            end
          else
            match unescape e with
            | None => None
            | Some cp => prepend cp (scanstring fuel r1)
            end
      end
    else if c <? 32 then None
    else prepend c (scanstring fuel r).
Proof. reflexivity. Qed.

Lemma hex_value_lt c x : hex_value c = Some x -> x < 16.
Proof.
  unfold hex_value, is_digit.
  destruct ((48 <=? c) && (c <=? 57)) eqn:E1.
  { intros H. injection H as <-.
    apply andb_true_iff in E1 as [H1 H2]. apply N.leb_le in H1, H2. lia. }
  destruct ((97 <=? c) && (c <=? 102)) eqn:E2.
  { intros H. injection H as <-.
    apply andb_true_iff in E2 as [H1 H2]. apply N.leb_le in H1, H2. lia. }
  destruct ((65 <=? c) && (c <=? 70)) eqn:E3; [|done].
  intros H. injection H as <-.
  apply andb_true_iff in E3 as [H1 H2]. apply N.leb_le in H1, H2. lia.
Qed.

Lemma decode_uXXXX_spec s uni r :
  decode_uXXXX s = Some (uni, r) -> uni < 65536 /\ r = drop 4 s.
Proof.
  destruct s as [|a [|b [|c [|d s]]]]; try done. cbn [decode_uXXXX].
  destruct (hex_value a) as [x|] eqn:Ea; [|done].
  destruct (hex_value b) as [y|] eqn:Eb; [|done].
  destruct (hex_value c) as [z|] eqn:Ec; [|done].
  destruct (hex_value d) as [w|] eqn:Ed; [|done].
  apply hex_value_lt in Ea, Eb, Ec, Ed. intros [= <- <-]. split; [lia|reflexivity].
Qed.

Lemma unescape_lt e cp : unescape e = Some cp -> cp < 128.
Proof.
  unfold unescape.
  repeat match goal with
         | |- (if ?b then _ else _) = _ -> _ => destruct b; [by intros [= <-]|]
         end.
  done.
Qed.

Lemma scalar_value_spec c :
  scalar_value c = true ->
  c < 1114112 /\ is_high_surrogate c = false /\ is_low_surrogate c = false.
Proof.
  unfold scalar_value, is_high_surrogate, is_low_surrogate. intros H.
  apply orb_true_iff in H as [H|H].
  - apply N.ltb_lt in H. split; [lia|].
    split; apply andb_false_iff; left; apply N.leb_gt; lia.
  - apply andb_true_iff in H as [H1 H2]. apply N.ltb_lt in H1, H2. split; [lia|].
    split; apply andb_false_iff; right; apply N.leb_gt; lia.
Qed.

Lemma small_not_surrogate c :
  c < 55296 -> is_high_surrogate c = false /\ is_low_surrogate c = false.
Proof.
  intros H. unfold is_high_surrogate, is_low_surrogate.
  split; apply andb_false_iff; left; apply N.leb_gt; lia.
Qed.

Lemma wf_str_cons c str :
  c < 1114112 ->
  match str with b :: _ => is_high_surrogate c && is_low_surrogate b = false | [] => True end ->
  wf_str str = true -> wf_str (c :: str) = true.
Proof.
  intros Hc Hpair Hwf. unfold wf_str in *. cbn [forallb no_surrogate_pair].
  apply andb_true_iff in Hwf as [H1 H2]. rewrite H1, H2.
  apply N.ltb_lt in Hc. rewrite Hc. destruct str; [reflexivity|]. by rewrite Hpair.
Qed.

Lemma scanstring_wf fuel : forall s str rest,
  scalars s -> scanstring fuel s = Some (str, rest) ->
  wf_str str = true /\ low_head s str /\ scalars rest.
Proof.
  induction fuel as [|fuel IH]; intros s str rest Hs Hscan; [done|].
  destruct s as [|c r]; [done|]. rewrite scanstring_eq in Hscan.
  apply Forall_cons in Hs as [Hc Hr].
  destruct (c =? quote) eqn:Eq.
  { injection Hscan as <- <-. done. }
  destruct (N.eqb_spec c backslash) as [->|Hnb].
  - destruct r as [|e r1]; [done|]. apply Forall_cons in Hr as [He Hr1].
    destruct (N.eqb_spec e (ch "u")) as [->|Hnu].
    + destruct (decode_uXXXX r1) as [[uni r2]|] eqn:Ed; [|done].
      destruct (decode_uXXXX_spec _ _ _ Ed) as [Huni ->].
      assert (Hr2 : scalars (drop 4 r1)) by (by apply Forall_drop).
      destruct (paired uni (drop 4 r1)) as [[cp r']|] eqn:Ep; [|done].
      destruct (scanstring fuel r') as [[str' rest']|] eqn:Es; [|done].
      injection Hscan as <- <-.
      unfold paired in Ep.
      destruct (is_high_surrogate uni && starts_with [backslash; ch "u"] (drop 4 r1)) eqn:Ehs.
      * destruct (decode_uXXXX (drop 2 (drop 4 r1))) as [[uni2 r3]|] eqn:Ed2; [|done].
        destruct (decode_uXXXX_spec _ _ _ Ed2) as [Huni2 ->].
        apply andb_true_iff in Ehs as [Ehigh Estart].
        destruct (is_low_surrogate uni2) eqn:Elow; injection Ep as <- <-.
        -- (* a pair *)
           destruct (IH _ _ _ ltac:(by do 2 apply Forall_drop) Es) as (Hwf & _ & Hrest).
           assert (Hj : 65536 <= join_surrogates uni uni2 < 1114112).
           { unfold join_surrogates, is_high_surrogate, is_low_surrogate in *.
             apply andb_true_iff in Ehigh as [H1 H2], Elow as [H3 H4].
             apply N.leb_le in H1, H2, H3, H4. lia. }
           assert (Hns : is_high_surrogate (join_surrogates uni uni2) = false
                         /\ is_low_surrogate (join_surrogates uni uni2) = false).
           { unfold is_high_surrogate, is_low_surrogate.
             split; apply andb_false_iff; right; apply N.leb_gt; lia. }
           destruct Hns as [Hnh Hnl].
           split; [|split; [|done]].
           ++ apply wf_str_cons; [lia| |done]. rewrite Hnh. by destruct str'.
           ++ cbn [low_head]. by rewrite Hnl.
        -- (* a high surrogate that the next escape does not complete *)
           destruct (IH _ _ _ Hr2 Es) as (Hwf & Hlow & Hrest).
           split; [|split; [|done]].
           ++ apply wf_str_cons; [lia| |done].
              destruct str' as [|b str']; [done|]. rewrite Ehigh. cbn [andb].
              destruct (is_low_surrogate b) eqn:Eb; [|done].
              destruct (Hlow Eb) as (_ & r & Hdec). congruence.
           ++ cbn [low_head]. intros _. split; [reflexivity|]. eauto.
      * injection Ep as <- <-.
        destruct (IH _ _ _ Hr2 Es) as (Hwf & Hlow & Hrest).
        split; [|split; [|done]].
        -- apply wf_str_cons; [lia| |done].
           destruct str' as [|b str']; [done|].
           destruct (is_high_surrogate uni) eqn:Ehigh; [|done]. cbn [andb] in *.
           destruct (is_low_surrogate b) eqn:Eb; [|done].
           destruct (Hlow Eb) as (Hst & _). congruence.
        -- cbn [low_head]. intros _. split; [reflexivity|]. eauto.
    + destruct (unescape e) as [cp|] eqn:Eu; [|done].
      destruct (scanstring fuel r1) as [[str' rest']|] eqn:Es; [|done].
      injection Hscan as <- <-.
      destruct (IH _ _ _ Hr1 Es) as (Hwf & _ & Hrest).
      apply unescape_lt in Eu.
      destruct (small_not_surrogate cp ltac:(lia)) as [Hnh Hnl].
      split; [|split; [|done]].
      * apply wf_str_cons; [lia| |done]. rewrite Hnh. by destruct str'.
      * cbn [low_head]. by rewrite Hnl.
  - destruct (c <? 32); [done|].
    destruct (scanstring fuel r) as [[str' rest']|] eqn:Es; [|done].
    injection Hscan as <- <-.
    destruct (IH _ _ _ Hr Es) as (Hwf & _ & Hrest).
    destruct (scalar_value_spec c Hc) as (Hlt & Hnh & Hnl).
    split; [|split; [|done]].
    + apply wf_str_cons; [done| |done]. rewrite Hnh. by destruct str'.
    + cbn [low_head]. by rewrite Hnl.
Qed.

(** *** Numbers *)

Lemma span_digits_spec s ds r :
  span_digits s = (ds, r) -> forallb is_digit ds = true /\ s = ds ++ r.
Proof.
  revert ds r. induction s as [|c s IH]; intros ds r; cbn [span_digits].
  - by intros [= <- <-].
  - destruct (is_digit c) eqn:Ec; [|by intros [= <- <-]].
    destruct (span_digits s) as [ds' r'] eqn:E. intros [= <- <-].
    destruct (IH _ _ eq_refl) as [H1 H2]. cbn [forallb app]. rewrite Ec, H1. by subst.
Qed.

Lemma drop_zeros_spec ds k r :
  drop_zeros ds = (k, r) ->
  ds = repeat 48 k ++ r /\ match r with c :: _ => c <> 48 | [] => True end.
Proof.
  revert k r. induction ds as [|c ds IH]; intros k r; cbn [drop_zeros].
  - by intros [= <- <-].
  - destruct (N.eqb_spec c 48) as [->|Hc].
    + destruct (drop_zeros ds) as [k' r'] eqn:E. intros [= <- <-].
      destruct (IH _ _ eq_refl) as [H1 H2]. cbn [repeat app]. by rewrite <- H1.
    + by intros [= <- <-].
Qed.

Lemma strip_trailing_zeros_spec ds :
  exists k, ds = strip_trailing_zeros ds ++ repeat 48 k
            /\ (strip_trailing_zeros ds = []
                \/ List.last (strip_trailing_zeros ds) 0 <> 48).
Proof.
  unfold strip_trailing_zeros.
  destruct (drop_zeros (rev ds)) as [k t] eqn:E.
  destruct (drop_zeros_spec _ _ _ E) as [H1 H2]. exists k. cbn [snd]. split.
  - rewrite <- (rev_involutive ds), H1, rev_app_distr, rev_repeat. reflexivity.
  - destruct t as [|c t]; [by left|]. right. cbn [rev]. by rewrite List.last_last.
Qed.

(** What [float()] returns bears a name of the form that [repr] writes. *)
Lemma float_of_decimal_wf neg ds decpt : wf_float (float_of_decimal neg ds decpt) = true.
Proof.
  unfold float_of_decimal.
  destruct (400 <? decpt)%Z; [reflexivity|]. destruct (decpt <? -400)%Z; [reflexivity|].
  destruct (fraction _ _) as [num den].
  destruct (nearest_binary64 num den) as [| |m e]; [reflexivity..|].
  destruct (dtoa m e) as [c s].
  set (all := digits_of_uint (N.to_uint (Z.to_N c))).
  destruct (strip_trailing_zeros_spec all) as (k & Hall & Hlast).
  pose proof (digits_of_uint_digits (N.to_uint (Z.to_N c))) as Hdig. fold all in Hdig.
  destruct (to_uint_shape (Z.to_N c)) as (d0 & ds0 & Hshape & _ & Hzero). fold all in Hshape.
  destruct (strip_trailing_zeros all) as [|d r] eqn:Es; [reflexivity|].
  destruct Hlast as [|Hlast]; [done|].
  rewrite Hall, forallb_app in Hdig. apply andb_true_iff in Hdig as [Hdig _].
  cbn [wf_float]. rewrite Hdig. cbn [andb].
  rewrite Hshape in Hall. cbn [app] in Hall. injection Hall as -> Hrest.
  destruct (N.eqb_spec d 48) as [->|Hd].
  - specialize (Hzero eq_refl). rewrite Hzero in Hrest. symmetry in Hrest.
    apply app_eq_nil in Hrest as [-> _]. cbn in Hlast. done.
  - apply negb_true_iff. by apply N.eqb_neq.
Qed.

Lemma float_of_lexeme_wf neg ipart frac e :
  wf_float (float_of_lexeme neg ipart frac e) = true.
Proof.
  unfold float_of_lexeme.
  destruct (drop_zeros (ipart ++ frac)) as [k ds].
  destruct (strip_trailing_zeros ds) as [|d r]; [reflexivity|].
  apply float_of_decimal_wf.
Qed.

Lemma suffix_refl s : suffix_of_text s s.
Proof. by exists O. Qed.

Lemma suffix_trans a b c : suffix_of_text a b -> suffix_of_text b c -> suffix_of_text a c.
Proof. intros [k ->] [j ->]. exists (j + k)%nat. by rewrite drop_drop. Qed.

Lemma suffix_app a b : suffix_of_text b (a ++ b).
Proof. exists (length a). by rewrite drop_app_length. Qed.

Lemma suffix_cons c s : suffix_of_text s (c :: s).
Proof. by exists 1%nat. Qed.

Lemma suffix_scalars r s : suffix_of_text r s -> scalars s -> scalars r.
Proof. intros [k ->]. apply Forall_drop. Qed.

Lemma scan_sign_suffix s neg r : scan_sign s = (neg, r) -> suffix_of_text r s.
Proof.
  destruct s as [|c s]; cbn [scan_sign]; [intros [= _ <-]; apply suffix_refl|].
  destruct (c =? ch "-"); intros [= _ <-]; [apply suffix_cons|apply suffix_refl].
Qed.

Lemma scan_int_spec s ipart r :
  scan_int s = Some (ipart, r) -> forallb is_digit ipart = true /\ suffix_of_text r s.
Proof.
  destruct s as [|d s]; [done|]. cbn [scan_int].
  destruct (is_digit d) eqn:Ed; [|done]. cbn [negb].
  destruct (d =? 48).
  - intros [= <- <-]. cbn [forallb]. rewrite Ed. split; [done|apply suffix_cons].
  - destruct (span_digits s) as [ds r'] eqn:E. intros [= <- <-].
    destruct (span_digits_spec _ _ _ E) as [H1 ->]. cbn [forallb]. rewrite Ed, H1.
    split; [done|]. apply (suffix_app (d :: ds)).
Qed.

Lemma scan_frac_spec s frac r :
  scan_frac s = (frac, r) -> forallb is_digit frac = true /\ suffix_of_text r s.
Proof.
  destruct s as [|p s]; cbn [scan_frac]; [intros [= <- <-]; split; [done|apply suffix_refl]|].
  destruct (p =? ch "."); [|intros [= <- <-]; split; [done|apply suffix_refl]].
  destruct (span_digits s) as [ds r'] eqn:E.
  destruct (span_digits_spec _ _ _ E) as [H1 ->].
  destruct ds as [|d ds]; intros [= <- <-]; (split; [done|]); [apply suffix_refl|].
  apply (suffix_app (p :: d :: ds)).
Qed.

Lemma scan_exp_suffix s e r : scan_exp s = (e, r) -> suffix_of_text r s.
Proof.
  destruct s as [|c s]; cbn [scan_exp]; [intros [= _ <-]; apply suffix_refl|].
  destruct ((c =? ch "e") || (c =? ch "E")); [|intros [= _ <-]; apply suffix_refl].
  set (signed := match s with
                 | c0 :: r' => if c0 =? ch "-" then (true, r')
                               else if c0 =? ch "+" then (false, r') else (false, s)
                 | [] => (false, s) end).
  assert (Hs : suffix_of_text (snd signed) s).
  { unfold signed. destruct s as [|c0 r']; [apply suffix_refl|].
    destruct (c0 =? ch "-"); [apply suffix_cons|].
    destruct (c0 =? ch "+"); [apply suffix_cons|apply suffix_refl]. }
  destruct signed as [eneg r1]. cbn [snd] in Hs.
  destruct (span_digits r1) as [ds r'] eqn:E.
  destruct (span_digits_spec _ _ _ E) as [_ ->].
  destruct ds; intros [= _ <-]; [apply suffix_refl|].
  eapply suffix_trans; [apply (suffix_app (n :: ds))|].
  eapply suffix_trans; [exact Hs|apply suffix_cons].
Qed.

Lemma scan_number_wf s v rest :
  scan_number s = Some (v, rest) ->
  (overlong v = false -> wf v = true) /\ is_atom v /\ suffix_of_text rest s.
Proof.
  unfold scan_number.
  destruct (scan_sign s) as [neg s1] eqn:E1.
  destruct (scan_int s1) as [[ipart s2]|] eqn:E2; [|done].
  destruct (scan_frac s2) as [frac s3] eqn:E3.
  destruct (scan_exp s3) as [e s4] eqn:E4.
  apply scan_sign_suffix in E1. apply scan_int_spec in E2 as [Hi E2].
  apply scan_frac_spec in E3 as [Hf E3]. apply scan_exp_suffix in E4.
  assert (Hsuf : suffix_of_text s4 s).
  { eapply suffix_trans; [exact E4|]. eapply suffix_trans; [exact E3|].
    eapply suffix_trans; [exact E2|exact E1]. }
  pose proof (float_of_lexeme_wf neg ipart frac) as Hwf.
  destruct frac as [|f frac], e as [e|]; intros [= <- <-]; cbn [wf is_atom];
    (split; [|done]); auto.
  intros ->. reflexivity.
Qed.

(** *** Tokens *)

Lemma skip_ws_suffix s : suffix_of_text (skip_ws s) s.
Proof.
  induction s as [|c s IH]; [apply suffix_refl|]. cbn [skip_ws].
  destruct (is_ws c); [|apply suffix_refl].
  eapply suffix_trans; [exact IH|apply suffix_cons].
Qed.

Lemma scan_once_wf c r t rest :
  scalars (c :: r) -> scan_once c r = Some (t, rest) -> wf_token t /\ scalars rest.
Proof.
  intros Hs. pose proof Hs as Hs'. apply Forall_cons in Hs' as [_ Hr].
  unfold scan_once.
  destruct (c =? quote).
  { destruct (scanstring (S (length r)) r) as [[str rest']|] eqn:E; [|done].
    intros [= <- <-]. destruct (scanstring_wf _ _ _ _ Hr E) as (Hwf & _ & Hrest).
    by repeat split. }
  repeat (match goal with
          | |- (if ?b then _ else _) = _ -> _ =>
              destruct b;
              [intros [= <- <-]; split; [done|]; by (done || apply Forall_drop)|]
          end).
  destruct (scan_number (c :: r)) as [[v rest']|] eqn:E.
  { intros [= <- <-]. destruct (scan_number_wf _ _ _ E) as (Hwf & Hatom & Hsuf).
    split; [|by eapply suffix_scalars].
    destruct (overlong v); [done|]. split; [by apply Hwf|done]. }
  repeat (match goal with
          | |- (if ?b then _ else _) = _ -> _ =>
              destruct b;
              [intros [= <- <-]; split; [done|]; by (done || apply Forall_drop)|]
          end).
  done.
Qed.

Lemma lex_wf fuel : forall s ts, scalars s -> lex fuel s = Some ts -> Forall wf_token ts.
Proof.
  induction fuel as [|fuel IH]; intros s ts Hs; [done|]. cbn [lex].
  pose proof (suffix_scalars _ _ (skip_ws_suffix s) Hs) as Hs'.
  destruct (skip_ws s) as [|c r]; [by intros [= <-]|].
  destruct (scan_once c r) as [[t rest]|] eqn:E; [|intros [= <-]; by repeat constructor].
  destruct (scan_once_wf _ _ _ _ Hs' E) as [Ht Hrest].
  destruct (last_token t); [intros [= <-]; by repeat constructor|].
  destruct (lex fuel rest) as [ts'|] eqn:El; [|done].
  intros [= <-]. constructor; [done|]. by eapply IH.
Qed.

(** *** Values *)

Lemma dict_set_spec {A} (Q : list N * A -> bool) d k v :
  NoDup (map fst d) -> forallb Q d = true -> Q (k, v) = true ->
  NoDup (map fst (dict_set d k v)) /\ forallb Q (dict_set d k v) = true.
Proof.
  intros Hnd Hd Hkv.
  assert (H : (map fst (dict_set d k v) = map fst d \/
               ((k ∉ map fst d) /\ map fst (dict_set d k v) = (map fst d ++ [k])))
              /\ forallb Q (dict_set d k v) = true).
  { clear Hnd. induction d as [|[k' v'] d IH]; cbn [dict_set map fst forallb] in *.
    - split; [right; split; [set_solver|done]|by rewrite Hkv].
    - apply andb_true_iff in Hd as [Hq Hd].
      destruct (text_eqb k' k) eqn:E.
      + apply text_eqb_eq in E. subst k'. cbn [map fst forallb]. rewrite Hkv, Hd.
        split; [by left|done].
      + assert (k' <> k) by (intros ->; by rewrite (proj2 (text_eqb_eq k k) eq_refl) in E).
        destruct (IH Hd) as [[Hk|[Hk1 Hk2]] Hf]; cbn [map fst forallb]; rewrite Hq, Hf;
          (split; [|done]).
        * left. by rewrite Hk.
        * right. split; [set_solver|]. by rewrite Hk2. }
  destruct H as [[Hk|[Hk1 Hk2]] Hf]; (split; [|done]).
  - by rewrite Hk.
  - rewrite Hk2. apply NoDup_app. split; [done|]. split; [set_solver|].
    apply NoDup_singleton.
Qed.

Lemma dict_of_pairs_wf {A} (Q : list N * A -> bool) ps :
  forallb Q ps = true ->
  NoDup (map fst (dict_of_pairs ps)) /\ forallb Q (dict_of_pairs ps) = true.
Proof.
  unfold dict_of_pairs.
  assert (H : forall acc, NoDup (map fst acc) -> forallb Q acc = true ->
                forallb Q ps = true ->
                NoDup (map fst (fold_left (fun d kv => dict_set d (fst kv) (snd kv)) ps acc))
                /\ forallb Q (fold_left (fun d kv => dict_set d (fst kv) (snd kv)) ps acc)
                   = true).
  { induction ps as [|[k v] ps IH]; intros acc Hnd Hacc Hps; cbn [fold_left]; [done|].
    cbn [forallb] in Hps. apply andb_true_iff in Hps as [Hkv Hps].
    destruct (dict_set_spec Q acc k v Hnd Hacc Hkv) as [H1 H2]. by apply IH. }
  intros Hps. apply (H []); [constructor|done|done].
Qed.

Lemma parse_wf fuel :
  (forall depth ts v rest, Forall wf_token ts ->
     parse_value fuel depth ts = Return (v, rest) ->
     wf v = true /\ Forall wf_token rest)
  /\ (forall depth ts l rest, Forall wf_token ts ->
        parse_elements fuel depth ts = Return (l, rest) ->
        forallb wf l = true /\ Forall wf_token rest)
  /\ (forall depth ts ps rest, Forall wf_token ts ->
        parse_members fuel depth ts = Return (ps, rest) ->
        forallb (fun kv => wf_str (fst kv) && wf (snd kv)) ps = true
        /\ Forall wf_token rest).
Proof.
  induction fuel as [|fuel (IHv & IHe & IHm)]; [done|]. split; [|split].
  - intros depth ts v rest Hts. cbn [parse_value].
    destruct ts as [|t ts]; [done|]. apply Forall_cons in Hts as [Ht Hts].
    destruct t; try done.
    + (* an object *)
      destruct (recursion_limit <=? depth); [done|].
      assert (Hgen : match parse_members fuel (depth + 1) ts with
                     | Return (ps, r') => Return (PyDict (dict_of_pairs ps), r')
                     | Raise e => Raise e
                     end = Return (v, rest) -> wf v = true /\ Forall wf_token rest).
      { destruct (parse_members fuel (depth + 1) ts) as [[ps r']|] eqn:E; [|done].
        intros [= <- <-]. destruct (IHm _ _ _ _ Hts E) as [Hps Hr]. split; [|done].
        destruct (dict_of_pairs_wf _ ps Hps) as [Hnd Hall]. cbn [wf].
        rewrite Hall, andb_true_r. by apply bool_decide_eq_true. }
      destruct ts as [|t' ts']; [exact Hgen|].
      destruct t'; try exact Hgen.
      intros [= <- <-]. apply Forall_cons in Hts as [_ Hts]. done.
    + (* an array *)
      destruct (recursion_limit <=? depth); [done|].
      assert (Hgen : match parse_elements fuel (depth + 1) ts with
                     | Return (l, r') => Return (PyList l, r')
                     | Raise e => Raise e
                     end = Return (v, rest) -> wf v = true /\ Forall wf_token rest).
      { destruct (parse_elements fuel (depth + 1) ts) as [[l r']|] eqn:E; [|done].
        intros [= <- <-]. by destruct (IHe _ _ _ _ Hts E). }
      destruct ts as [|t' ts']; [exact Hgen|].
      destruct t'; try exact Hgen.
      intros [= <- <-]. apply Forall_cons in Hts as [_ Hts]. done.
    + intros [= <- <-]. by destruct Ht.
  - intros depth ts l rest Hts. cbn [parse_elements].
    destruct (parse_value fuel depth ts) as [[v r]|] eqn:E; [|done].
    destruct (IHv _ _ _ _ Hts E) as [Hv Hr].
    destruct r as [|t r]; [done|]. apply Forall_cons in Hr as [_ Hr].
    destruct t; try done.
    + intros [= <- <-]. cbn [forallb]. by rewrite Hv.
    + destruct (parse_elements fuel depth r) as [[l' r']|] eqn:E'; [|done].
      intros [= <- <-]. destruct (IHe _ _ _ _ Hr E') as [Hl Hr'].
      cbn [forallb]. by rewrite Hv, Hl.
  - intros depth ts ps rest Hts. cbn [parse_members].
    destruct ts as [|t ts]; [done|]. apply Forall_cons in Hts as [Ht Hts].
    destruct t as [| | | | | |k| |]; try done. destruct k as [| | | |k| |]; try done.
    destruct ts as [|t ts]; [done|]. apply Forall_cons in Hts as [_ Hts].
    destruct t; try done.
    destruct (parse_value fuel depth ts) as [[v r]|] eqn:E; [|done].
    destruct (IHv _ _ _ _ Hts E) as [Hv Hr].
    destruct Ht as [Hk _]. cbn [wf] in Hk.
    destruct r as [|t r]; [done|]. apply Forall_cons in Hr as [_ Hr].
    destruct t; try done.
    + intros [= <- <-]. cbn [forallb fst snd]. by rewrite Hk, Hv.
    + destruct (parse_members fuel depth r) as [[ps' r']|] eqn:E'; [|done].
      intros [= <- <-]. destruct (IHm _ _ _ _ Hr E') as [Hl Hr'].
      cbn [forallb fst snd]. by rewrite Hk, Hv, Hl.
Qed.

(** What [loads] makes of a decoded text is well formed. *)
Theorem loads_wf s v : scalars s -> loads s = Return v -> wf v = true.
Proof.
  intros Hs. unfold loads. destruct (starts_with [BOM] s); [done|].
  destruct (lex (S (length s)) s) as [ts|] eqn:El; [|done].
  pose proof (lex_wf _ _ _ Hs El) as Hts.
  destruct (parse_value (S (2 * length ts)) 0 ts) as [[v' rest]|] eqn:Ep; [|done].
  destruct (proj1 (parse_wf _) _ _ _ _ Hts Ep) as [Hv _].
  destruct rest; [|done]. by intros [= <-].
Qed.

(** * Properties *)

Import Os Flask App Gateway.
Local Open Scope string_scope.

(** ** The computations of app.py, step by step *)

Lemma load_json_outcome g f w :
  load_json g f w =
    (fst (load_outcome (OsPath.join (LOG_DIR g) [f]) (files w !! OsPath.join (LOG_DIR g) [f])),
     log w (snd (load_outcome (OsPath.join (LOG_DIR g) [f])
                              (files w !! OsPath.join (LOG_DIR g) [f])))).
Proof.
  unfold load_json. generalize (OsPath.join (LOG_DIR g) [f]). intros p.
  run_io.
  destruct (files w !! p) as [n|] eqn:E; run_io; [|reflexivity].
  rewrite E. destruct n; run_io; rewrite ?E; run_io; rewrite <- ?app_assoc; reflexivity.
Qed.

(** A GET on the route of a metric runs [load_json] on the file of that
    metric and hands the value to [jsonify]; an exception becomes the
    response of [handle_exception]. *)
Lemma serve_metric g m w :
  serve g (get (route m)) w =
    (respond (app g)
       match fst (load_json g (file_name m) w) with
       | Return o => Return (jsonify (app g) o)
       | Raise e => Raise e
       end,
     snd (load_json g (file_name m) w)).
Proof.
  destruct m; unfold serve, wsgi_app, url_map, get, route, file_name;
    cbn [match_rule String.eqb Ascii.eqb Bool.eqb path meth];
    unfold serial_metrics, parallel_metrics, compare_metrics, mbind, IO_bind, Os.bind, ret;
    match goal with |- context [load_json g ?f w] => destruct (load_json g f w) as [[o|e] w'] end;
    reflexivity.
Qed.

Lemma start_log_dir eng here as_main :
  LOG_DIR (start eng here as_main) = OsPath.join here ["results"; "logs"].
Proof. destruct as_main; reflexivity. Qed.

Lemma log_inj w evs evs' : log w evs = log w evs' -> evs = evs'.
Proof.
  unfold log. intros H. injection H as H. by apply app_inv_head in H.
Qed.

(** ** C1 *)

(** C1.  For each of the three metrics operations, when nothing stands at
    the path of its file under the results directory, the GET is answered
    with status 200 and content type application/json, and the body is the
    JSON empty object: the two characters of the empty object, followed by the
    newline with which jsonify ends every body; decoded, it is the empty
    dict.  The only system call is the existence check. *)
Theorem C1_missing_file_empty_object eng here as_main m w :
  files w !! metrics_path (start eng here as_main) m = None ->
  serve (start eng here as_main) (get (route m)) w =
    ({| status := 200; content_type := application_json; data := T "{}" ++ [newline] |},
     log w [Stat (metrics_path (start eng here as_main) m)])
  /\ Json.loads (T "{}" ++ [newline]) = Return (PyDict []).
Proof.
  intros Hnone. split; [|reflexivity].
  rewrite serve_metric, load_json_outcome.
  unfold metrics_path in Hnone. rewrite Hnone. cbn [load_outcome fst snd respond].
  unfold jsonify. destruct as_main; reflexivity.
Qed.

Lemma C1_missing_file_empty_object_witness :
  files no_results !! metrics_path (start plain_engines here0 false) Compare = None
  /\ serve (start plain_engines here0 false) (get "/api/compare") no_results =
      ({| status := 200; content_type := application_json; data := T "{}" ++ [newline] |},
       World ∅ [Stat "/srv/app/results/logs/compare_metrics.json"]).
Proof.
  split; [reflexivity|].
  exact (proj1 (C1_missing_file_empty_object plain_engines here0 false Compare
                  no_results eq_refl)).
Defined.

(** ** C2 *)

(** With what a JSON value starts. *)
Lemma value_head constants v :
  Rfc8259.value constants v ->
  exists c r, v = c :: r
              /\ (is_digit c = true
                  \/ c ∈ [ch "-"; quote; ch "["; ch "{"; ch "f"; ch "n"; ch "t"]
                  \/ (constants = true /\ c ∈ [ch "N"; ch "I"])).
Proof.
  intros H. destruct H as [| | |s Hn|s _|w _|els _|w _|ms _|s Hc Hs];
    try (eexists _, _; split; [reflexivity|right; left; set_solver]).
  - destruct Hn as (neg & d & ds & f & e & -> & Hd & _).
    apply andb_true_iff in Hd as [Hd _].
    destruct neg; cbn [app]; eexists _, _; (split; [reflexivity|]);
      [right; left; set_solver|by left].
  - repeat (apply elem_of_cons in Hs as [->|Hs];
            [eexists _, _; split; [reflexivity|set_solver]|]).
    by apply elem_of_nil in Hs.
Qed.

(** A text whose first character is neither whitespace nor the start of a
    value is not JSON. *)
Lemma text_head constants c r :
  Rfc8259.text constants (c :: r) ->
  is_ws c = true \/ is_digit c = true
  \/ c ∈ [ch "-"; quote; ch "["; ch "{"; ch "f"; ch "n"; ch "t"]
  \/ (constants = true /\ c ∈ [ch "N"; ch "I"]).
Proof.
  intros (w1 & v & w2 & E & Hw1 & Hv & _).
  destruct w1 as [|c' w1].
  - destruct (value_head _ _ Hv) as (c' & r' & -> & Hc). cbn [app] in E.
    injection E as -> _. by right.
  - cbn [app] in E. injection E as -> _. left.
    unfold Rfc8259.ws in Hw1. cbn [forallb] in Hw1. by apply andb_true_iff in Hw1 as [? _].
Qed.




(** ** C6 *)

(** C6.  For each metrics operation, load_json is decided by what stands
    at the path of its file: the empty dict is returned without opening
    anything exactly when the existence check fails; when something stands
    at the path the file is opened once in read mode, and a failure of open
    (a directory, no permission), of read (text that does not decode) or of
    the JSON decoder is raised as it is, after one attempt; every exception
    that leaves load_json reaches the client as the response of
    handle_exception. *)
Theorem C6_only_missing_file_is_recovered eng here as_main m w :
  let g := start eng here as_main in
  let p := metrics_path g m in
  load_json g (file_name m) w
    = (fst (load_outcome p (files w !! p)), log w (snd (load_outcome p (files w !! p))))
  /\ (files w !! p = None
      <-> load_json g (file_name m) w = (Return (PyDict []), log w [Stat p]))
  /\ (forall n, files w !! p = Some n ->
        exists evs, snd (load_json g (file_name m) w)
                      = log w (Stat p :: Open p mode_r :: evs))
  /\ (forall e w', load_json g (file_name m) w = (Raise e, w') ->
        serve g (get (route m)) w = (handle_exception (app g) e, w')).
Proof.
  intros g p.
  assert (Hload := load_json_outcome g (file_name m) w).
  fold (metrics_path g m) in Hload. fold p in Hload.
  split; [exact Hload|]. split; [|split].
  - rewrite Hload. split.
    + intros ->. reflexivity.
    + destruct (files w !! p) as [[| | |s]|]; cbn [load_outcome fst snd]; intros H;
        try reflexivity; apply (f_equal snd) in H; cbn [snd] in H;
        apply log_inj in H; discriminate.
  - intros n Hn. rewrite Hload, Hn.
    destruct n; cbn [load_outcome fst snd]; eauto.
  - intros e w' He. rewrite serve_metric, He. reflexivity.
Qed.

(** ** C9 *)

Lemma log_nil w : log w [] = w.
Proof. destruct w. unfold log. cbn. by rewrite app_nil_r. Qed.

Lemma load_json_reads g f w :
  exists evs, snd (load_json g f w) = log w evs /\ Forall reads_only evs.
Proof.
  rewrite load_json_outcome. cbn [snd]. eexists. split; [reflexivity|].
  destruct (files w !! _) as [[| | |s]|]; cbn [load_outcome snd];
    repeat constructor.
Qed.

Lemma render_template_reads a name w :
  exists evs, snd (render_template a name w) = log w evs /\ Forall reads_only evs.
Proof.
  unfold render_template. generalize (OsPath.join (root_path a) ["templates"; name]).
  intros p. run_io.
  destruct (files w !! p) as [[| | |s]|] eqn:E; run_io; rewrite ?E; run_io;
    rewrite ?E; run_io;
    try (destruct (jinja_render (engines a) s)); cbn [snd]; rewrite <- ?app_assoc;
    (eexists; split; [unfold log; reflexivity|repeat constructor]).
Qed.

Lemma view_reads g rule view w :
  In (rule, view) (url_map g) ->
  exists evs, snd (view w) = log w evs /\ Forall reads_only evs.
Proof.
  unfold url_map. cbn [In].
  intros [H|[H|[H|[H|[]]]]]; injection H as _ <-;
    unfold index, serial_metrics, parallel_metrics, compare_metrics, mbind, IO_bind, Os.bind, ret.
  - pose proof (render_template_reads (app g) "index.html" w) as H.
    destruct (render_template _ _ w) as [[x|e] w']; exact H.
  - pose proof (load_json_reads g "serial_metrics.json" w) as H.
    destruct (load_json _ _ w) as [[x|e] w']; exact H.
  - pose proof (load_json_reads g "parallel_metrics.json" w) as H.
    destruct (load_json _ _ w) as [[x|e] w']; exact H.
  - pose proof (load_json_reads g "compare_metrics.json" w) as H.
    destruct (load_json _ _ w) as [[x|e] w']; exact H.
Qed.

Lemma match_rule_In {A} (rules : list (string * A)) p view :
  match_rule rules p = Some view -> In (p, view) rules.
Proof.
  induction rules as [|[rule v] r IH]; cbn [match_rule]; [discriminate|].
  destruct (String.eqb rule p) eqn:E.
  - apply String.eqb_eq in E. subst. intros [= ->]. by left.
  - intros H. right. auto.
Qed.

Lemma serve_reads g req w :
  exists evs, snd (serve g req w) = log w evs /\ Forall reads_only evs.
Proof.
  unfold serve, wsgi_app.
  destruct (match_rule (url_map g) (path req)) as [view|] eqn:E.
  2: { exists []. by rewrite log_nil. }
  apply match_rule_In in E.
  destruct (view_reads g _ _ w E) as (evs & Hw & Hev).
  destruct (meth req); try (exists []; by rewrite log_nil);
    destruct (view w) as [[x|e] w']; eauto.
Qed.

(** C9.  Whatever the request (any method, any path) and whatever the
    world, the files after the response are the files before it; the system
    calls of the request are existence checks and the opening in read mode,
    reading and closing of files, and none opens a file for writing. *)
Theorem C9_requests_leave_files_unchanged eng here as_main req w :
  files (snd (serve (start eng here as_main) req w)) = files w
  /\ exists evs,
       trace (snd (serve (start eng here as_main) req w)) = (trace w ++ evs)%list
       /\ Forall reads_only evs.
Proof.
  destruct (serve_reads (start eng here as_main) req w) as (evs & -> & Hev).
  split; [reflexivity|]. by exists evs.
Qed.

(** ** Paths *)

Lemma endswith_sep_app a b :
  b <> "" -> OsPath.endswith_sep (a ++ b) = OsPath.endswith_sep b.
Proof.
  intros Hb. induction a as [|c a IH]; [reflexivity|].
  rewrite <- IH. change (String c a ++ b)%string with (String c (a ++ b)).
  destruct (a ++ b)%string eqn:E; [|reflexivity].
  destruct a; [by destruct Hb|discriminate].
Qed.

Lemma eqb_app_empty a b : b <> "" -> String.eqb (a ++ b) "" = false.
Proof.
  intros Hb. apply String.eqb_neq. destruct a; [exact Hb|discriminate].
Qed.

Lemma append_assoc (a b c : string) : ((a ++ b) ++ c)%string = (a ++ (b ++ c))%string.
Proof.
  induction a as [|x a IH]; [reflexivity|].
  change (String x ((a ++ b) ++ c) = String x (a ++ (b ++ c)))%string. by rewrite IH.
Qed.

Lemma append_inv_head (a b c : string) : (a ++ b)%string = (a ++ c)%string -> b = c.
Proof.
  induction a as [|x a IH]; [done|].
  change (String x (a ++ b) = String x (a ++ c) -> b = c)%string. intros [= H]. auto.
Qed.

(** [join d [x]] for a component [x] that is relative. *)
Lemma join_relative d x :
  OsPath.startswith_sep x = false -> OsPath.join d [x] = (with_sep d ++ x)%string.
Proof.
  intros Hx. cbn [OsPath.join]. rewrite Hx. unfold with_sep.
  destruct (String.eqb d "" || OsPath.endswith_sep d)%bool; [reflexivity|].
  by rewrite append_assoc.
Qed.

Lemma with_sep_app d x :
  x <> "" -> OsPath.endswith_sep x = false -> with_sep (d ++ x) = (d ++ x ++ "/")%string.
Proof.
  intros Hx Hend. unfold with_sep.
  rewrite eqb_app_empty, endswith_sep_app, Hend by done. cbn. by rewrite append_assoc.
Qed.

Lemma log_dir_eq g eng here as_main :
  g = start eng here as_main -> LOG_DIR g = (with_sep here ++ "results/logs")%string.
Proof.
  intros ->. rewrite start_log_dir.
  change (OsPath.join here ["results"; "logs"])
    with (OsPath.join (OsPath.join here ["results"]) ["logs"]).
  rewrite (join_relative here) by reflexivity.
  rewrite join_relative by reflexivity.
  rewrite with_sep_app by done. by rewrite append_assoc.
Qed.

Lemma metrics_path_eq eng here as_main m :
  metrics_path (start eng here as_main) m
    = (with_sep here ++ "results/logs/" ++ file_name m)%string.
Proof.
  unfold metrics_path. rewrite (log_dir_eq _ eng here as_main eq_refl).
  rewrite join_relative by (by destruct m).
  rewrite with_sep_app by done. by rewrite append_assoc.
Qed.

Lemma template_path_eq eng here as_main :
  template_path (start eng here as_main) = (with_sep here ++ "templates/index.html")%string.
Proof.
  unfold template_path.
  replace (root_path (app (start eng here as_main))) with here by (by destruct as_main).
  change (OsPath.join here ["templates"; "index.html"])
    with (OsPath.join (OsPath.join here ["templates"]) ["index.html"]).
  rewrite (join_relative here) by reflexivity.
  rewrite join_relative by reflexivity.
  rewrite with_sep_app by done. by rewrite append_assoc.
Qed.

(** ** The index view *)

Lemma render_template_outcome a name w :
  render_template a name w =
    (fst (template_outcome a name (OsPath.join (root_path a) ["templates"; name])
            (files w !! OsPath.join (root_path a) ["templates"; name])),
     log w (snd (template_outcome a name (OsPath.join (root_path a) ["templates"; name])
                   (files w !! OsPath.join (root_path a) ["templates"; name])))).
Proof.
  unfold render_template. generalize (OsPath.join (root_path a) ["templates"; name]).
  intros p. run_io.
  destruct (files w !! p) as [[| | |s]|] eqn:E; run_io; rewrite ?E; run_io;
    rewrite ?E; run_io; rewrite <- ?app_assoc; reflexivity.
Qed.

Lemma serve_index g w :
  serve g (get "/") w =
    (respond (app g)
       match fst (render_template (app g) "index.html" w) with
       | Return page => Return {| status := 200; content_type := text_html; data := page |}
       | Raise e => Raise e
       end,
     snd (render_template (app g) "index.html" w)).
Proof.
  unfold serve, wsgi_app, url_map, get.
  cbn [match_rule String.eqb Ascii.eqb Bool.eqb path meth].
  unfold index, mbind, IO_bind, Os.bind, ret.
  destruct (render_template (app g) "index.html" w) as [[page|e] w']; reflexivity.
Qed.

(** ** C4 *)

Lemma file_name_inj m m' : file_name m = file_name m' -> m = m'.
Proof. destruct m, m'; (reflexivity || discriminate). Qed.

Lemma route_inj m m' : route m = route m' -> m = m'.
Proof. destruct m, m'; (reflexivity || discriminate). Qed.

(** C4.  The route of each metrics operation is served from one file, and
    the association is fixed: the results directory is the value computed
    from the location of the module when it is imported, the same in every
    world and for every request.  When a text that json.load accepts stands
    at the path of the file of the metric in that directory, the GET on the
    route of the metric checks, opens, reads and closes that path, once and in
    this order, makes no other system call, and answers with what jsonify makes
    of the decoded text.  Whatever stands at the path, load_json starts with
    the existence check of that path and makes no system call on any other
    path, and what it returns or raises is the same in any two worlds that
    agree at that path.  Distinct metrics have distinct routes, file names and
    paths. *)
Theorem C4_route_reads_its_own_file eng here as_main m w :
  let g := start eng here as_main in
  let p := metrics_path g m in
  LOG_DIR g = OsPath.join here ["results"; "logs"]
  /\ p = (with_sep here ++ "results/logs/" ++ file_name m)%string
  /\ (forall s v, files w !! p = Some (File s) -> Json.loads s = Return v ->
        serve g (get (route m)) w
          = (jsonify (app g) v, log w [Stat p; Open p mode_r; Read p; Close p]))
  /\ (exists evs, snd (load_json g (file_name m) w) = log w (Stat p :: evs)
                  /\ Forall (fun ev => event_path ev = p) evs)
  /\ (forall w', files w' !! p = files w !! p ->
        fst (load_json g (file_name m) w') = fst (load_json g (file_name m) w))
  /\ (forall m', (route m' = route m -> m' = m)
                 /\ (file_name m' = file_name m -> m' = m)
                 /\ (metrics_path g m' = p -> m' = m)).
Proof.
  intros g p. split; [apply start_log_dir|].
  split; [apply metrics_path_eq|]. split; [|split; [|split]].
  - intros s v Hfile Hv. rewrite serve_metric, load_json_outcome. cbn [fst snd].
    fold (metrics_path g m). fold p. rewrite Hfile. cbn [load_outcome fst snd].
    by rewrite Hv.
  - rewrite load_json_outcome. cbn [snd].
    fold (metrics_path g m). fold p.
    destruct (files w !! p) as [[| | |s]|]; cbn [load_outcome snd];
      eexists; (split; [reflexivity|]); repeat constructor.
  - intros w' Hw'. rewrite !load_json_outcome. cbn [fst].
    fold (metrics_path g m). fold p. by rewrite Hw'.
  - intros m'. split; [apply route_inj|]. split; [apply file_name_inj|].
    unfold p, g. rewrite !metrics_path_eq. intros H.
    apply append_inv_head in H.
    apply (append_inv_head "results/logs/") in H. by apply file_name_inj.
Qed.

(** ** C5 *)

Lemma serve_files g req w : files (snd (serve g req w)) = files w.
Proof. destruct (serve_reads g req w) as (evs & -> & _). reflexivity. Qed.

Lemma view_same_files g rule view w w' :
  In (rule, view) (url_map g) -> files w = files w' -> fst (view w) = fst (view w').
Proof.
  unfold url_map. cbn [In].
  intros [H|[H|[H|[H|[]]]]] Hf; injection H as _ <-;
    unfold index, serial_metrics, parallel_metrics, compare_metrics, mbind, IO_bind, Os.bind, ret.
  - pose proof (render_template_outcome (app g) "index.html" w) as H.
    pose proof (render_template_outcome (app g) "index.html" w') as H'.
    rewrite Hf in H. rewrite H, H'.
    destruct (template_outcome _ _ _ _) as [[x|e] evs]; reflexivity.
  - rewrite !load_json_outcome, Hf.
    destruct (load_outcome _ _) as [[x|e] evs]; reflexivity.
  - rewrite !load_json_outcome, Hf.
    destruct (load_outcome _ _) as [[x|e] evs]; reflexivity.
  - rewrite !load_json_outcome, Hf.
    destruct (load_outcome _ _) as [[x|e] evs]; reflexivity.
Qed.

(** The response to a request is a function of the files as they are when
    it arrives. *)
Lemma serve_same_files g req w w' :
  files w = files w' -> fst (serve g req w) = fst (serve g req w').
Proof.
  intros Hf. unfold serve, wsgi_app.
  destruct (match_rule (url_map g) (path req)) as [view|] eqn:E; [|reflexivity].
  apply match_rule_In in E.
  pose proof (view_same_files g _ _ w w' E Hf) as Hv.
  destruct (meth req); try reflexivity;
    destruct (view w) as [[x|e] w1], (view w') as [[x'|e'] w1']; cbn [fst] in *;
    congruence.
Qed.

Lemma run_files g hs w : files (snd (run g hs w)) = files_after hs (files w).
Proof.
  revert w. induction hs as [|[req|p n] hs IH]; intros w; cbn [run]; [reflexivity| |].
  - pose proof (serve_files g req w) as Hs.
    destruct (serve g req w) as [resp w1]. specialize (IH w1).
    destruct (run g hs w1) as [resps w2]. cbn [snd] in *.
    unfold files_after in *. cbn [fold_left]. congruence.
  - rewrite IH. reflexivity.
Qed.

Lemma run_app g hs hs' w :
  fst (run g (hs ++ hs') w) = (fst (run g hs w) ++ fst (run g hs' (snd (run g hs w))))%list.
Proof.
  revert w. induction hs as [|[req|p n] hs IH]; intros w;
    rewrite <- ?app_comm_cons; cbn [run]; [reflexivity| |].
  - destruct (serve g req w) as [resp w1]. specialize (IH w1).
    destruct (run g (hs ++ hs') w1) as [resps w2], (run g hs w1) as [r1 w3].
    cbn [fst snd app] in *. by subst resps.
  - apply IH.
Qed.

(** C5.  Nothing read is kept from one request to the next.  When the
    producer writes a text to the file of a metric, a request for that metric
    arrives, the producer replaces the text and a second request arrives, the
    first response is made from the first text and the second from the
    second, and each of the two requests checks, opens, reads and closes the
    file.  More generally, after any history of requests and of changes to the
    files, the response to a request for a metric is the one that a process
    that has served nothing yet gives on the files as they are at that
    moment. *)
Theorem C5_each_request_reads_afresh eng here as_main m w s1 s2 :
  let g := start eng here as_main in
  let p := metrics_path g m in
  let answer s :=
    respond (app g)
      match Json.loads s with
      | Return o => Return (jsonify (app g) o)
      | Raise e => Raise e
      end in
  let twice := [Produced p (Some (File s1)); Incoming (get (route m));
                Produced p (Some (File s2)); Incoming (get (route m))] in
  fst (run g twice w) = [answer s1; answer s2]
  /\ trace (snd (run g twice w))
     = (trace w ++ [Stat p; Open p mode_r; Read p; Close p;
                    Stat p; Open p mode_r; Read p; Close p])%list
  /\ (forall hs,
        List.last (fst (run g (hs ++ [Incoming (get (route m))]) w)) (answer [])
          = fst (serve g (get (route m)) (World (files_after hs (files w)) []))).
Proof.
  intros g p answer twice. split; [|split].
  - unfold twice. cbn [run]. rewrite !serve_metric, !load_json_outcome. cbn [fst snd].
    fold (metrics_path g m). fold p.
    unfold produce, log. cbn [files trace].
    rewrite !lookup_insert_eq. reflexivity.
  - unfold twice. cbn [run]. rewrite !serve_metric, !load_json_outcome. cbn [fst snd].
    fold (metrics_path g m). fold p.
    unfold produce, log. cbn [files trace].
    rewrite !lookup_insert_eq. cbn [load_outcome snd trace]. by rewrite <- app_assoc.
  - intros hs. rewrite run_app. cbn [run].
    pose proof (serve_same_files g (get (route m)) (snd (run g hs w))
                  (World (files_after hs (files w)) []) (run_files g hs w)) as H.
    destruct (serve g (get (route m)) (snd (run g hs w))) as [resp w1]. cbn [fst] in *.
    by rewrite List.last_last.
Qed.

(** ** C7 *)

(** C7, as the specification states it, fails: in an installation without
    templates/index.html, a GET on the root path, served by a process that
    has rendered nothing yet, fails because of the missing template: it is
    answered with status 500, the response of handle_exception to
    TemplateNotFound. *)
Lemma C7_missing_template_fails_the_request :
  files no_results !! template_path (start plain_engines here0 true) = None
  /\ fst (serve (start plain_engines here0 true) (get "/") no_results)
       = handle_exception (app (start plain_engines here0 true))
           (TemplateNotFound "index.html")
  /\ status (fst (serve (start plain_engines here0 true) (get "/") no_results)) = 500%N
  /\ fst (serve (start plain_engines here0 false) (get "/") no_results)
       = handle_exception (app (start plain_engines here0 false))
           (TemplateNotFound "index.html")
  /\ status (fst (serve (start plain_engines here0 false) (get "/") no_results)) = 500%N.
Proof. repeat split. Qed.

(** C7, amended.  A missing template is an error of the request, not of
    the start of the process: a GET on the root path that is served by a
    process which holds no compiled template (its first rendering) while no
    file stands at templates/index.html is answered with status 500, the
    response of handle_exception to TemplateNotFound, after one look at the
    path. *)
Theorem C7_missing_template_is_a_request_error eng here as_main w :
  let g := start eng here as_main in
  files w !! template_path g = None ->
  serve g (get "/") w
    = (handle_exception (app g) (TemplateNotFound "index.html"),
       log w [Stat (template_path g)])
  /\ status (fst (serve g (get "/") w)) = 500%N.
Proof.
  intros g Hnone.
  assert (Hs : serve g (get "/") w
       = (handle_exception (app g) (TemplateNotFound "index.html"),
          log w [Stat (template_path g)])).
  { rewrite serve_index, render_template_outcome.
    fold (template_path g). rewrite Hnone. reflexivity. }
  split; [exact Hs|]. by rewrite Hs.
Qed.

Lemma C7_missing_template_is_a_request_error_witness :
  files no_results !! template_path (start plain_engines here0 false) = None
  /\ status (fst (serve (start plain_engines here0 false) (get "/") no_results)) = 500%N.
Proof.
  split; [reflexivity|].
  exact (proj2 (C7_missing_template_is_a_request_error plain_engines here0
                  false no_results eq_refl)).
Defined.

(** ** C8 *)

Lemma template_not_under_results eng here as_main :
  ~ under (OsPath.join here ["results"]) (template_path (start eng here as_main)).
Proof.
  intros [rest H]. rewrite template_path_eq, join_relative in H by reflexivity.
  rewrite with_sep_app, !append_assoc in H by done.
  apply append_inv_head in H. discriminate.
Qed.

(** C8.  The index operation does not depend on the results directory.
    For any two worlds that differ only at paths in or below the results
    directory (metrics files present, missing, malformed or unreadable), the
    GET on the root path has one and the same response; with the template
    installed, that response has status 200, an HTML content type and the
    rendered template as its body. *)
Theorem C8_index_ignores_results_directory eng here as_main w1 w2 :
  let g := start eng here as_main in
  (forall p, files w1 !! p <> files w2 !! p -> under (OsPath.join here ["results"]) p) ->
  fst (serve g (get "/") w1) = fst (serve g (get "/") w2)
  /\ (forall source page,
        files w1 !! template_path g = Some (File source) ->
        jinja_render eng source = Return page ->
        fst (serve g (get "/") w2)
          = {| status := 200; content_type := "text/html; charset=utf-8"; data := page |}).
Proof.
  intros g Hdiff.
  assert (Hsame : files w1 !! template_path g = files w2 !! template_path g).
  { destruct (decide (files w1 !! template_path g = files w2 !! template_path g)) as [|Hne];
      [done|].
    destruct (template_not_under_results eng here as_main (Hdiff _ Hne)). }
  assert (Heq : fst (serve g (get "/") w1) = fst (serve g (get "/") w2)).
  { rewrite !serve_index, !render_template_outcome. cbn [fst].
    fold (template_path g). by rewrite Hsame. }
  split; [exact Heq|].
  intros source page Hfile Hrender. rewrite <- Heq.
  rewrite serve_index, render_template_outcome. cbn [fst].
  fold (template_path g). rewrite Hfile. cbn [template_outcome fst].
  replace (engines (app g)) with eng by (by destruct as_main).
  rewrite Hrender. reflexivity.
Qed.

Lemma C8_index_ignores_results_directory_witness :
  (forall p, files installed !! p <> files (installed_with (T "{not valid}")) !! p ->
             under (OsPath.join here0 ["results"]) p)
  /\ fst (serve (start plain_engines here0 false) (get "/") installed)
     = fst (serve (start plain_engines here0 false) (get "/")
              (installed_with (T "{not valid}")))
  /\ fst (serve (start plain_engines here0 false) (get "/")
            (installed_with (T "{not valid}")))
     = {| status := 200; content_type := "text/html; charset=utf-8"; data := index_page |}.
Proof.
  assert (Hdiff : forall p,
    files installed !! p <> files (installed_with (T "{not valid}")) !! p ->
    under (OsPath.join here0 ["results"]) p).
  { intros p Hne.
    destruct (decide (p = "/srv/app/results/logs/serial_metrics.json")) as [->|Hp].
    - by exists "logs/serial_metrics.json".
    - destruct Hne. unfold installed_with. cbn [files].
      by rewrite lookup_insert_ne. }
  split; [exact Hdiff|].
  destruct (C8_index_ignores_results_directory plain_engines here0 false installed
              (installed_with (T "{not valid}")) Hdiff) as [H1 H2].
  split; [exact H1|]. exact (H2 index_page index_page eq_refl eq_refl).
Defined.

(** ** C3 *)

Lemma canon_same v : same_json v (canon v).
Proof.
  induction v as [|b|z|f|s|l IH|d IH] using pyvalue_nested_ind;
    try (by apply same_scalar).
  - cbn [canon]. apply same_array.
    induction IH as [|x l Hx _ IHl]; cbn [map]; by constructor.
  - cbn [canon]. rewrite (sorted_items_map canon).
    apply (same_object d (Encoder.sorted_items d)).
    + symmetry. apply sorted_items_perm.
    + assert (Hall : Forall (fun kv => same_json (snd kv) (canon (snd kv)))
                       (Encoder.sorted_items d)).
      { rewrite List.Forall_forall in *. intros kv Hkv. apply IH.
        eapply Permutation_in; [apply sorted_items_perm|done]. }
      induction Hall as [|kv l Hkv _ IHl]; cbn [map]; by constructor.
Qed.

(** No encoder gives back the text of every file: two texts that differ
    in whitespace decode to one value. *)
Lemma no_encoder_is_verbatim (encoder : pyvalue -> list N) :
  exists s v, loads s = Return v /\ encoder v <> s.
Proof.
  destruct (decide (encoder (PyInt 1) = T "1")) as [H|H].
  - exists (T " 1"), (PyInt 1). split; [reflexivity|]. by rewrite H.
  - exists (T "1"), (PyInt 1). by split.
Qed.

(** C3, as the specification states it, fails.  With serial_metrics.json
    holding the text of the specification's own example (an object with
    the member a, a space after the colon), the file decodes, the response has
    status 200, and its body is not the text of the file, with or without the
    final newline, whether the process runs with the debugger (indented
    output) or without (compact output). *)
Lemma C3_body_differs_from_file_text :
  loads spec_example = Return (PyDict [(T "a", PyInt 1)])
  /\ fst (serve (start plain_engines here0 false) (get "/api/serial")
            (results_with spec_example))
     = {| status := 200; content_type := application_json;
          data := spec_example_compact |}
  /\ spec_example_compact <> spec_example
  /\ spec_example_compact <> (spec_example ++ [newline])%list
  /\ fst (serve (start plain_engines here0 true) (get "/api/serial")
            (results_with spec_example))
     = {| status := 200; content_type := application_json;
          data := spec_example_indented |}
  /\ spec_example_indented <> spec_example
  /\ spec_example_indented <> (spec_example ++ [newline])%list.
Proof. repeat split; (reflexivity || discriminate). Qed.

(** C3, amended.  For each metrics operation and every file whose text (a
    text of Unicode scalar values, as every text decoded from a file is) is
    accepted by json.load, with a value nested at most 100 deep, the response
    has status 200 and content type application/json, and its body is what
    jsonify writes for the decoded value: the encoding with sorted keys,
    ASCII escapes and the separators of the mode (compact without the
    debugger, indented with it), and a final newline.  When the floats of
    the value are written by repr so that float() reads them back, as
    CPython's repr does, decoding the body gives the decoded value of the file
    with the members of every object in the order of their keys, which is the
    same JSON value.  The body is not in general the text of the file. *)
Theorem C3_body_is_the_encoding_of_the_value eng here as_main m w s v :
  files w !! metrics_path (start eng here as_main) m = Some (File s) ->
  Forall (fun c => scalar_value c = true) s ->
  loads s = Return v ->
  (nesting v <= 100)%N ->
  let r := fst (serve (start eng here as_main) (get (route m)) w) in
  status r = 200%N
  /\ content_type r = "application/json"
  /\ data r = (dumps (if as_main then Some 2%nat else None) v ++ [newline])%list
  /\ (reprs v = true -> loads (data r) = Return (canon v))
  /\ same_json v (canon v).
Proof.
  intros Hfile Hs Hv Hdepth r.
  assert (Hr : r = jsonify (app (start eng here as_main)) v).
  { unfold r. rewrite serve_metric, load_json_outcome.
    fold (metrics_path (start eng here as_main) m). rewrite Hfile.
    cbn [load_outcome fst]. by rewrite Hv. }
  assert (Hdata : data r
                  = (dumps (if as_main then Some 2%nat else None) v ++ [newline])%list).
  { rewrite Hr. by destruct as_main. }
  rewrite Hdata. split; [by rewrite Hr|]. split; [by rewrite Hr|]. split; [done|].
  split; [|apply canon_same].
  intros Hrepr. apply loads_dumps; [by apply (loads_wf s)|done| |reflexivity].
  unfold recursion_limit. lia.
Qed.

Lemma C3_body_is_the_encoding_of_the_value_witness :
  files (results_with timing_example)
    !! metrics_path (start plain_engines here0 false) Serial
    = Some (File timing_example)
  /\ Forall (fun c => scalar_value c = true) timing_example
  /\ loads timing_example = Return timing_value
  /\ (nesting timing_value <= 100)%N
  /\ reprs timing_value = true
  /\ data (fst (serve (start plain_engines here0 false) (get "/api/serial")
                  (results_with timing_example)))
     = (dumps None timing_value ++ [newline])%list
  /\ loads (data (fst (serve (start plain_engines here0 false) (get "/api/serial")
                         (results_with timing_example))))
     = Return (canon timing_value).
Proof.
  assert (Hs : Forall (fun c => scalar_value c = true) timing_example).
  { apply Forall_forall. intros c Hc. vm_compute in Hc.
    repeat (apply elem_of_cons in Hc as [->|Hc]; [reflexivity|]).
    by apply elem_of_nil in Hc. }
  assert (Hv : loads timing_example = Return timing_value) by (vm_compute; reflexivity).
  assert (Hd : (nesting timing_value <= 100)%N) by (vm_compute; discriminate).
  assert (Hr : reprs timing_value = true) by (vm_compute; reflexivity).
  split; [reflexivity|]. split; [exact Hs|]. split; [exact Hv|]. split; [exact Hd|].
  split; [exact Hr|].
  pose proof (C3_body_is_the_encoding_of_the_value plain_engines here0
                false Serial (results_with timing_example) timing_example timing_value
                eq_refl Hs Hv Hd) as (_ & _ & H3 & H4 & _).
  split; [exact H3|exact (H4 Hr)].
Defined.

(** ** C10 *)

(** The decoder takes a scalar as a whole document. *)
Lemma scalar_documents_decode :
  loads (T "null") = Return PyNone
  /\ loads (T "42") = Return (PyInt 42)
  /\ loads (T "-1.5e3") = Return (PyFloat (FFinite true (T "15") 4))
  /\ loads (T "true") = Return (PyBool true)
  /\ loads (Q "text") = Return (PyStr (T "text")).
Proof. repeat split; vm_compute; reflexivity. Qed.

Lemma canon_scalar v : scalar v -> canon v = v.
Proof. by destruct v. Qed.

(** C10, as it is stated, fails: not every syntactically valid scalar is
    answered with status 200 and that value as the body.  The text 1e400 is a
    number of RFC 8259; float() makes the infinite float of it, and the body
    of the response, with status 200, is the name Infinity, which is not the
    number of the file and is not JSON.  A text of 4301 digits is an integer
    of RFC 8259; int() refuses it with ValueError, and the response has status
    500. *)
Lemma C10_valid_numbers_are_not_served_as_they_are :
  Rfc8259.json overflowing_example
  /\ fst (serve (start plain_engines here0 false) (get "/api/serial")
            (results_with overflowing_example))
     = {| status := 200; content_type := application_json;
          data := (T "Infinity" ++ [newline])%list |}
  /\ ~ Rfc8259.json (T "Infinity" ++ [newline])%list
  /\ Rfc8259.json long_integer
  /\ loads long_integer = Raise ValueError
  /\ status (fst (serve (start plain_engines here0 false) (get "/api/serial")
                    (results_with long_integer))) = 500%N.
Proof.
  split; [|split; [|split; [|split; [|split]]]].
  - exists [], (T "1e400"), []. split; [reflexivity|]. split; [reflexivity|].
    split; [|reflexivity]. apply Rfc8259.value_number.
    exists false, 49%N, [], [], (T "e400").
    split; [reflexivity|]. split; [reflexivity|]. split; [discriminate|].
    split; [by left|]. right. exists (ch "e"), [], (T "400").
    split; [reflexivity|]. split; [by left|]. split; [by left|]. split; [discriminate|].
    reflexivity.
  - vm_compute. reflexivity.
  - intros H. apply text_head in H as [H|[H|[H|[H _]]]]; try discriminate.
    vm_compute in H. set_solver.
  - exists [], long_integer, []. split; [by rewrite app_nil_r|]. split; [reflexivity|].
    split; [|reflexivity]. apply Rfc8259.value_number.
    exists false, 49%N, (repeat 49%N 4300), [], [].
    split; [by rewrite !app_nil_r|]. split; [vm_compute; reflexivity|].
    split; [discriminate|]. split; by left.
  - vm_compute. reflexivity.
  - vm_compute. reflexivity.
Qed.

(** C10, amended.  For each metrics operation, when the file holds a
    scalar as json.dumps writes it (null, true, false, an integer that
    int() converts, the repr of a float, a string with the escapes of the
    encoder), with any whitespace before and after it, json.load accepts the
    text and returns the scalar, the response has status 200 and content type
    application/json, and its body is the encoding of that scalar followed by
    a newline, which decodes to the same scalar: no error is raised for a
    document that is neither object nor array. *)
Theorem C10_scalar_documents_are_served eng here as_main m w v w1 w2 :
  scalar v -> wf v = true -> reprs v = true ->
  forallb is_ws w1 = true -> forallb is_ws w2 = true ->
  files w !! metrics_path (start eng here as_main) m
    = Some (File (w1 ++ dumps None v ++ w2)%list) ->
  loads (w1 ++ dumps None v ++ w2)%list = Return v
  /\ fst (serve (start eng here as_main) (get (route m)) w)
     = {| status := 200; content_type := "application/json";
          data := (dumps None v ++ [newline])%list |}
  /\ loads (dumps None v ++ [newline])%list = Return v.
Proof.
  intros Hscalar Hwf Hrepr Hw1 Hw2 Hfile.
  assert (Hdepth : (nesting v <= recursion_limit)%N) by (by destruct v).
  assert (Hv : loads (w1 ++ dumps None v ++ w2)%list = Return v).
  { rewrite loads_dumps_ws by done. by rewrite canon_scalar. }
  split; [exact Hv|]. split.
  - rewrite serve_metric, load_json_outcome.
    fold (metrics_path (start eng here as_main) m). rewrite Hfile.
    cbn [load_outcome fst]. rewrite Hv. cbn [respond]. unfold jsonify.
    f_equal. f_equal. destruct as_main; [|reflexivity]. by destruct v.
  - rewrite loads_dumps by done. by rewrite canon_scalar.
Qed.

Lemma C10_scalar_documents_are_served_witness :
  scalar (PyFloat (FFinite false (T "125") 0))
  /\ wf (PyFloat (FFinite false (T "125") 0)) = true
  /\ reprs (PyFloat (FFinite false (T "125") 0)) = true
  /\ files (results_with (T " 0.125" ++ [newline]))
       !! metrics_path (start plain_engines here0 true) Serial
     = Some (File ([32%N] ++ dumps None (PyFloat (FFinite false (T "125") 0))
                     ++ [newline])%list)
  /\ loads (T " 0.125" ++ [newline])%list = Return (PyFloat (FFinite false (T "125") 0))
  /\ fst (serve (start plain_engines here0 true) (get "/api/serial")
            (results_with (T " 0.125" ++ [newline])))
     = {| status := 200; content_type := "application/json";
          data := (T "0.125" ++ [newline])%list |}.
Proof.
  assert (Hr : reprs (PyFloat (FFinite false (T "125") 0)) = true)
    by (vm_compute; reflexivity).
  assert (Hfile : files (results_with (T " 0.125" ++ [newline]))
       !! metrics_path (start plain_engines here0 true) Serial
     = Some (File ([32%N] ++ dumps None (PyFloat (FFinite false (T "125") 0))
                     ++ [newline])%list)) by (vm_compute; reflexivity).
  split; [exact I|]. split; [reflexivity|]. split; [exact Hr|]. split; [exact Hfile|].
  pose proof (C10_scalar_documents_are_served plain_engines here0 true Serial
                (results_with (T " 0.125" ++ [newline]))
                (PyFloat (FFinite false (T "125") 0)) [32%N] [newline]
                I eq_refl Hr eq_refl eq_refl Hfile) as (H1 & H2 & _).
  split; [exact H1|exact H2].
Defined.

(** * Further properties *)

(** ** Further properties: the name of the file *)

(** X1.  load_json looks for a relative file name directly under LOG_DIR
    and for a name that starts with a slash at that absolute path, outside
    LOG_DIR (os.path.join drops what stands before an absolute component);
    what it returns and the system calls it makes are decided by what stands
    at that one path. *)
Theorem X1_load_json_resolves_the_name g f w :
  let p := if OsPath.startswith_sep f then f else (with_sep (LOG_DIR g) ++ f)%string in
  load_json g f w
    = (fst (load_outcome p (files w !! p)), log w (snd (load_outcome p (files w !! p)))).
Proof.
  intros p. rewrite load_json_outcome.
  assert (OsPath.join (LOG_DIR g) [f] = p) as ->; [|reflexivity].
  unfold p. destruct (OsPath.startswith_sep f) eqn:E.
  - cbn [OsPath.join]. by rewrite E.
  - by apply join_relative.
Qed.

(** ** Further properties: the status of a metrics response *)

(** X5.  A GET on a metrics route is answered with status 200 or 500 and
    nothing else, and with 200 exactly when nothing stands at the path of the
    file or a file stands there whose text json.load accepts; a directory, an
    unreadable or undecodable file, and a rejected text all give 500. *)
Theorem X5_metrics_status_is_200_or_500 eng here as_main m w :
  let g := start eng here as_main in
  let p := metrics_path g m in
  let r := fst (serve g (get (route m)) w) in
  (status r = 200%N \/ status r = 500%N)
  /\ (status r = 200%N
      <-> files w !! p = None
          \/ exists s v, files w !! p = Some (File s) /\ loads s = Return v).
Proof.
  intros g p r. unfold r. rewrite serve_metric, load_json_outcome. cbn [fst].
  fold (metrics_path g m). fold p.
  destruct (files w !! p) as [[| | |s]|]; cbn [load_outcome fst respond].
  1-3: (split; [by right|]); split; [done|];
       intros [|(s & v & H & _)]; discriminate.
  - destruct (loads s) as [v|e] eqn:E; cbn [respond].
    + split; [by left|]. split; [|done]. intros _. right. by exists s, v.
    + split; [by right|]. split; [done|].
      intros [|(s' & v & [= <-] & H)]; [done|]. congruence.
  - split; [by left|]. split; [|done]. intros _. by left.
Qed.

(** ** Further properties: the encoder and the order of the members *)

Lemma text_leb_total a b :
  Encoder.text_leb a b = false -> Encoder.text_leb b a = true.
Proof.
  revert b. induction a as [|x a IH]; intros [|y b]; cbn [Encoder.text_leb]; try done.
  destruct (N.ltb_spec x y); [done|].
  destruct (N.ltb_spec y x); [done|]. apply IH.
Qed.

Lemma insert_item_sorted {A} (kv : list N * A) l :
  key_sorted l -> key_sorted (Encoder.insert_item kv l).
Proof.
  induction l as [|a l IH]; [done|]. intros [Ha Hl].
  cbn [Encoder.insert_item].
  destruct (Encoder.text_leb (fst kv) (fst a)) eqn:E.
  - cbn [key_sorted]. split; [exact E|]. by split.
  - specialize (IH Hl). cbn [key_sorted]. split; [|exact IH].
    destruct l as [|b l]; cbn [Encoder.insert_item].
    + by apply text_leb_total.
    + destruct (Encoder.text_leb (fst kv) (fst b)); [by apply text_leb_total|exact Ha].
Qed.

Lemma sorted_items_sorted {A} (d : list (list N * A)) : key_sorted (Encoder.sorted_items d).
Proof.
  unfold Encoder.sorted_items. induction d as [|kv d IH]; [done|].
  cbn [foldr]. by apply insert_item_sorted.
Qed.

Lemma sorted_items_id {A} (l : list (list N * A)) :
  key_sorted l -> Encoder.sorted_items l = l.
Proof.
  unfold Encoder.sorted_items. induction l as [|a l IH]; [done|]. intros [Ha Hl].
  cbn [foldr]. rewrite (IH Hl). destruct l as [|b l]; [done|].
  cbn [Encoder.insert_item]. by rewrite Ha.
Qed.

Lemma sorted_items_idem {A} (d : list (list N * A)) :
  Encoder.sorted_items (Encoder.sorted_items d) = Encoder.sorted_items d.
Proof. apply sorted_items_id, sorted_items_sorted. Qed.

Lemma encode_canon indent lvl v :
  Encoder.encode indent lvl (canon v) = Encoder.encode indent lvl v.
Proof.
  revert lvl.
  induction v as [|b|z|f|s|l IH|d IH] using pyvalue_nested_ind; intros lvl; try done.
  - destruct l as [|x l]; [done|]. cbn [canon map Encoder.encode].
    do 3 f_equal. rewrite map_map.
    apply Forall_cons in IH as [Hx Hl]. rewrite Hx.
    destruct l as [|y l]; [done|]. do 2 f_equal.
    apply map_ext_in. intros a Ha. by apply (proj1 (List.Forall_forall _ _) Hl).
  - destruct d as [|kv d]; [done|]. cbn [canon].
    destruct (Encoder.sorted_items (map _ (kv :: d))) as [|kv' d'] eqn:E.
    { by apply sorted_items_nil in E. }
    rewrite <- E. clear E kv' d'.
    assert (E : forall d0 : list (list N * pyvalue), d0 <> [] ->
      Encoder.encode indent lvl (PyDict d0)
      = (ch "{" :: Encoder.newline_indent indent (S lvl)
         ++ Encoder.join (ch "," :: Encoder.newline_indent indent (S lvl))
              (map (fun kv => Encoder.encode_basestring_ascii (fst kv)
                                ++ Encoder.key_separator indent ++ snd kv)
                 (Encoder.sorted_items
                    (map (fun kv => (fst kv, Encoder.encode indent (S lvl) (snd kv))) d0)))
         ++ Encoder.newline_indent indent lvl ++ [ch "}"])%list).
    { intros [|? ?]; done. }
    rewrite !E; [|done|intros H; by apply sorted_items_nil in H].
    do 4 f_equal.
    rewrite !(sorted_items_map (Encoder.encode indent (S lvl))).
    rewrite !(sorted_items_map canon).
    rewrite sorted_items_idem. f_equal.
    rewrite map_map. cbn [fst snd].
    apply map_ext_in. intros a Ha. f_equal.
    apply (proj1 (List.Forall_forall _ _) IH).
    eapply Permutation_in; [apply sorted_items_perm|exact Ha].
Qed.

Lemma jsonify_canon a v : jsonify a (canon v) = jsonify a v.
Proof. unfold jsonify, dumps. by rewrite encode_canon. Qed.

(** X10.  The order of the members in the file does not reach the client:
    two files that decode to values with the same members, in whatever
    order they are written (the two values agree once the members of every
    object are put in the order of their keys), are answered with the same
    response, byte for byte. *)
Theorem X10_member_order_is_not_served eng here as_main m w1 w2 s1 s2 v1 v2 :
  let g := start eng here as_main in
  files w1 !! metrics_path g m = Some (File s1) ->
  files w2 !! metrics_path g m = Some (File s2) ->
  loads s1 = Return v1 -> loads s2 = Return v2 ->
  canon v1 = canon v2 ->
  fst (serve g (get (route m)) w1) = fst (serve g (get (route m)) w2).
Proof.
  intros g H1 H2 L1 L2 Hc. unfold metrics_path in H1, H2.
  rewrite !serve_metric, !load_json_outcome. cbn [fst].
  rewrite H1, H2. cbn [load_outcome fst]. rewrite L1, L2. cbn [respond].
  by rewrite <- (jsonify_canon _ v1), <- (jsonify_canon _ v2), Hc.
Qed.

(** X11.  A response is a fixed point of the gateway: when the body of a
    200 response to a file of Unicode text (a value nested at most 100 deep,
    whose floats repr writes so that float() reads them back) is written
    back as the file of that metric, the next response is the same, byte for
    byte. *)
Theorem X11_served_body_is_served_again eng here as_main m w s v :
  let g := start eng here as_main in
  files w !! metrics_path g m = Some (File s) ->
  Forall (fun c => scalar_value c = true) s ->
  loads s = Return v ->
  reprs v = true ->
  (nesting v <= 100)%N ->
  let r := fst (serve g (get (route m)) w) in
  fst (serve g (get (route m)) (produce (metrics_path g m) (Some (File (data r))) w)) = r.
Proof.
  intros g Hf Hs Hl Hrepr Hdepth r. subst r. unfold metrics_path in Hf |- *.
  rewrite !serve_metric, !load_json_outcome. cbn [fst].
  rewrite Hf. cbn [load_outcome fst]. rewrite Hl. cbn [respond].
  unfold produce. cbn [files]. rewrite lookup_insert_eq. cbn [load_outcome fst].
  unfold jsonify at 1. cbn [data].
  rewrite (loads_dumps _ v [newline]);
    [|by eapply loads_wf|done|unfold recursion_limit; lia|done].
  cbn [respond]. apply jsonify_canon.
Qed.

(** X7.  Running app.py as a script (app.run(debug=True)) changes the
    layout of the body of a 200 response of a metrics route and not the value
    that it carries: for a file that json.load accepts (a value nested at most
    100 deep, whose floats repr writes so that float() reads them back), the
    body is the compact encoding without the debugger and the encoding
    indented by two spaces with it, and the two bodies decode to one and the
    same value. *)
Theorem X7_debug_changes_layout_only eng here m w s v :
  files w !! metrics_path (start eng here false) m = Some (File s) ->
  Forall (fun c => scalar_value c = true) s ->
  loads s = Return v ->
  reprs v = true ->
  (nesting v <= 100)%N ->
  let r0 := fst (serve (start eng here false) (get (route m)) w) in
  let r1 := fst (serve (start eng here true) (get (route m)) w) in
  data r0 = (dumps None v ++ [newline])%list
  /\ data r1 = (dumps (Some 2%nat) v ++ [newline])%list
  /\ loads (data r0) = Return (canon v)
  /\ loads (data r1) = Return (canon v).
Proof.
  intros Hf Hs Hl Hrepr Hdepth r0 r1. subst r0 r1. unfold metrics_path in Hf.
  rewrite !serve_metric, !load_json_outcome. cbn [fst].
  change (LOG_DIR (start eng here true)) with (LOG_DIR (start eng here false)).
  rewrite Hf. cbn [load_outcome fst]. rewrite Hl. cbn [respond jsonify data].
  pose proof (loads_wf s v Hs Hl) as Hwf.
  assert (Hlim : (nesting v <= recursion_limit)%N) by (unfold recursion_limit; lia).
  split; [reflexivity|]. split; [reflexivity|].
  split; by apply loads_dumps.
Qed.

Lemma X7_debug_changes_layout_only_witness :
  files (results_with timing_example)
    !! metrics_path (start plain_engines here0 false) Serial = Some (File timing_example)
  /\ Forall (fun c => scalar_value c = true) timing_example
  /\ loads timing_example = Return timing_value
  /\ reprs timing_value = true
  /\ (nesting timing_value <= 100)%N
  /\ loads (data (fst (serve (start plain_engines here0 true) (get (route Serial))
                         (results_with timing_example))))
     = Return (canon timing_value).
Proof.
  assert (Hs : Forall (fun c => scalar_value c = true) timing_example).
  { apply Forall_forall. intros c Hc. vm_compute in Hc.
    repeat (apply elem_of_cons in Hc as [->|Hc]; [reflexivity|]).
    by apply elem_of_nil in Hc. }
  assert (Hv : loads timing_example = Return timing_value) by (vm_compute; reflexivity).
  assert (Hd : (nesting timing_value <= 100)%N) by (vm_compute; discriminate).
  assert (Hr : reprs timing_value = true) by (vm_compute; reflexivity).
  split; [reflexivity|]. split; [exact Hs|]. split; [exact Hv|]. split; [exact Hr|].
  split; [exact Hd|].
  exact (proj2 (proj2 (proj2 (X7_debug_changes_layout_only plain_engines here0 Serial
           (results_with timing_example) timing_example timing_value
           eq_refl Hs Hv Hr Hd)))).
Defined.

(** ** Further properties: the characters of a body *)

Lemma ascii_only_app a b : ascii_only a -> ascii_only b -> ascii_only (a ++ b).
Proof. unfold ascii_only. intros. by apply Forall_app. Qed.

Lemma ascii_only_cons c s : (c < 128)%N -> ascii_only s -> ascii_only (c :: s).
Proof. unfold ascii_only. intros. by constructor. Qed.

Lemma digits_ascii ds : forallb is_digit ds = true -> ascii_only ds.
Proof.
  unfold ascii_only. induction ds as [|d ds IH]; [constructor|]. cbn [forallb].
  intros [Hd Hds]%andb_true_iff. constructor; [|by apply IH].
  unfold is_digit in Hd. apply andb_true_iff in Hd as [_ Hd]. apply N.leb_le in Hd. lia.
Qed.

Lemma repeat_ascii c k : (c < 128)%N -> ascii_only (repeat c k).
Proof. intros Hc. unfold ascii_only. induction k; cbn [repeat]; by constructor. Qed.

Lemma hex_digit_ascii k : (k < 16)%N -> (Encoder.hex_digit k < 128)%N.
Proof. intros Hk. unfold Encoder.hex_digit. destruct (k <? 10)%N; lia. Qed.

Lemma hex4_ascii n : ascii_only (Encoder.hex4 n).
Proof.
  unfold Encoder.hex4. repeat apply ascii_only_cons; try constructor;
    apply hex_digit_ascii; by apply N.mod_lt.
Qed.

Lemma escape_char_ascii c : ascii_only (Encoder.escape_char c).
Proof.
  unfold Encoder.escape_char.
  repeat match goal with
         | |- context [(c =? ?x)%N] => destruct (c =? x)%N; [by ascii_literal|]
         end.
  destruct ((32 <=? c)%N && (c <=? 126)%N) eqn:E.
  { apply andb_true_iff in E as [_ E]. apply N.leb_le in E.
    apply ascii_only_cons; [lia|constructor]. }
  destruct (c <? 65536)%N.
  - do 2 (apply ascii_only_cons; [done|]). apply hex4_ascii.
  - cbv zeta. do 2 (apply ascii_only_cons; [done|]).
    apply ascii_only_app; [apply hex4_ascii|].
    do 2 (apply ascii_only_cons; [done|]). apply hex4_ascii.
Qed.

Lemma encode_basestring_ascii_only s : ascii_only (Encoder.encode_basestring_ascii s).
Proof.
  unfold Encoder.encode_basestring_ascii. apply ascii_only_cons; [done|].
  apply ascii_only_app; [|by ascii_literal].
  induction s as [|c s IH]; [constructor|]. cbn [map concat].
  apply ascii_only_app; [apply escape_char_ascii|exact IH].
Qed.

Lemma digits_of_uint_ascii u : ascii_only (digits_of_uint u).
Proof. apply digits_ascii, digits_of_uint_digits. Qed.

Lemma int_repr_ascii z : ascii_only (Encoder.int_repr z).
Proof.
  destruct z; cbn [Encoder.int_repr]; try apply digits_of_uint_ascii.
  apply ascii_only_cons; [done|apply digits_of_uint_ascii].
Qed.

Lemma exponent_repr_ascii x : ascii_only (Encoder.exponent_repr x).
Proof.
  unfold Encoder.exponent_repr. cbv zeta.
  pose proof (digits_of_uint_ascii (N.to_uint (Z.to_N (Z.abs x)))) as H.
  apply ascii_only_cons; [by destruct (x <? 0)%Z|].
  destruct (digits_of_uint _) as [|d [|d' r]]; [done| |done].
  apply ascii_only_cons; [done|exact H].
Qed.

Lemma float_repr_ascii f : wf_float f = true -> ascii_only (Encoder.float_repr f).
Proof.
  destruct f as [| [|] |neg ds decpt]; try (intros _; by ascii_literal).
  cbn [wf_float]. intros [Hds%digits_ascii _]%andb_true_iff.
  cbn [Encoder.float_repr]. apply ascii_only_app; [destruct neg; by ascii_literal|].
  cbv zeta. destruct ((-4 <? decpt)%Z && (decpt <=? 16)%Z).
  - destruct (decpt <=? 0)%Z.
    + apply ascii_only_app; [by ascii_literal|].
      apply ascii_only_app; [by apply repeat_ascii|exact Hds].
    + destruct (Z.of_nat (length ds) <=? decpt)%Z.
      * apply ascii_only_app; [exact Hds|].
        apply ascii_only_app; [by apply repeat_ascii|by ascii_literal].
      * apply ascii_only_app; [by apply Forall_take|].
        apply ascii_only_cons; [done|by apply Forall_drop].
  - destruct ds as [|d [|d' r]]; [constructor|..].
    + apply Forall_cons in Hds as [Hd _].
      do 2 (apply ascii_only_cons; [done|]). apply exponent_repr_ascii.
    + apply Forall_cons in Hds as [Hd Hr].
      do 2 (apply ascii_only_cons; [done|]).
      apply ascii_only_app; [exact Hr|].
      apply ascii_only_cons; [done|]. apply exponent_repr_ascii.
Qed.

Lemma newline_indent_ascii indent lvl : ascii_only (Encoder.newline_indent indent lvl).
Proof.
  destruct indent; cbn [Encoder.newline_indent]; [|constructor].
  apply ascii_only_cons; [done|by apply repeat_ascii].
Qed.

Lemma join_ascii sep l :
  ascii_only sep -> Forall ascii_only l -> ascii_only (Encoder.join sep l).
Proof.
  intros Hsep. induction l as [|x l IH]; [constructor|].
  intros [Hx Hl]%Forall_cons. cbn [Encoder.join]. destruct l as [|y l]; [exact Hx|].
  apply ascii_only_app; [exact Hx|]. apply ascii_only_app; [exact Hsep|by apply IH].
Qed.

Lemma encode_ascii indent lvl v : wf v = true -> ascii_only (Encoder.encode indent lvl v).
Proof.
  revert lvl.
  induction v as [|b|z|f|s|l IH|d IH] using pyvalue_nested_ind; intros lvl Hwf.
  - by ascii_literal.
  - destruct b; by ascii_literal.
  - apply int_repr_ascii.
  - by apply float_repr_ascii.
  - apply encode_basestring_ascii_only.
  - destruct l as [|x l]; [by ascii_literal|]. cbn [Encoder.encode]. cbv zeta.
    apply ascii_only_cons; [done|].
    apply ascii_only_app; [apply newline_indent_ascii|].
    apply ascii_only_app;
      [|apply ascii_only_app; [apply newline_indent_ascii|by ascii_literal]].
    apply join_ascii; [apply ascii_only_cons; [done|apply newline_indent_ascii]|].
    apply Forall_forall. intros t Ht. apply list_elem_of_In, in_map_iff in Ht as (a & <- & Ha).
    cbn [wf] in Hwf. rewrite forallb_forall in Hwf.
    apply (proj1 (List.Forall_forall _ _) IH a Ha). by apply Hwf.
  - destruct d as [|kv d]; [by ascii_literal|]. cbn [Encoder.encode]. cbv zeta.
    apply ascii_only_cons; [done|].
    apply ascii_only_app; [apply newline_indent_ascii|].
    apply ascii_only_app;
      [|apply ascii_only_app; [apply newline_indent_ascii|by ascii_literal]].
    apply join_ascii; [apply ascii_only_cons; [done|apply newline_indent_ascii]|].
    rewrite (sorted_items_map (Encoder.encode indent (S lvl))), map_map. cbn [fst snd].
    apply Forall_forall. intros t Ht. apply list_elem_of_In, in_map_iff in Ht as (a & <- & Ha).
    apply ascii_only_app; [apply encode_basestring_ascii_only|].
    apply ascii_only_app; [destruct indent; by ascii_literal|].
    assert (Ha' : In a (kv :: d)).
    { eapply Permutation_in; [apply sorted_items_perm|exact Ha]. }
    cbn [wf] in Hwf. apply andb_true_iff in Hwf as [_ Hwf].
    rewrite forallb_forall in Hwf. specialize (Hwf a Ha').
    apply andb_true_iff in Hwf as [_ Hwf].
    by apply (proj1 (List.Forall_forall _ _) IH a Ha').
Qed.

(** X12.  The body of a 200 response of a metrics route holds ASCII
    characters only, whatever characters the file (a text of Unicode
    characters) holds: the encoder writes every other character as an
    escape. *)
Theorem X12_json_body_is_ascii eng here as_main m w :
  let g := start eng here as_main in
  (forall s, files w !! metrics_path g m = Some (File s) ->
             Forall (fun c => scalar_value c = true) s) ->
  status (fst (serve g (get (route m)) w)) = 200%N ->
  ascii_only (data (fst (serve g (get (route m)) w))).
Proof.
  intros g Hs. unfold metrics_path in Hs.
  rewrite serve_metric, load_json_outcome. cbn [fst].
  destruct (files w !! _) as [[| | |s]|] eqn:Ef; cbn [load_outcome fst respond];
    try (unfold handle_exception; cbn [status]; discriminate).
  - destruct (loads s) as [v|e] eqn:El; cbn [respond];
      [|unfold handle_exception; cbn [status]; discriminate].
    intros _. unfold jsonify. cbn [data].
    apply ascii_only_app; [|by ascii_literal].
    apply encode_ascii. eapply loads_wf; [|exact El]. by apply Hs.
  - intros _. by ascii_literal.
Qed.

Lemma X10_member_order_is_not_served_witness :
  files (results_with members_b_a) !! metrics_path (start plain_engines here0 false) Serial
    = Some (File members_b_a)
  /\ files (results_with members_a_b) !! metrics_path (start plain_engines here0 false) Serial
     = Some (File members_a_b)
  /\ loads members_b_a = Return (PyDict [(T "b", PyInt 2); (T "a", PyInt 1)])
  /\ loads members_a_b = Return (PyDict [(T "a", PyInt 1); (T "b", PyInt 2)])
  /\ canon (PyDict [(T "b", PyInt 2); (T "a", PyInt 1)])
     = canon (PyDict [(T "a", PyInt 1); (T "b", PyInt 2)])
  /\ fst (serve (start plain_engines here0 false) (get (route Serial))
            (results_with members_b_a))
     = fst (serve (start plain_engines here0 false) (get (route Serial))
              (results_with members_a_b)).
Proof.
  assert (H1 : files (results_with members_b_a)
                 !! metrics_path (start plain_engines here0 false) Serial
               = Some (File members_b_a)) by (vm_compute; reflexivity).
  assert (H2 : files (results_with members_a_b)
                 !! metrics_path (start plain_engines here0 false) Serial
               = Some (File members_a_b)) by (vm_compute; reflexivity).
  assert (L1 : loads members_b_a = Return (PyDict [(T "b", PyInt 2); (T "a", PyInt 1)]))
    by (vm_compute; reflexivity).
  assert (L2 : loads members_a_b = Return (PyDict [(T "a", PyInt 1); (T "b", PyInt 2)]))
    by (vm_compute; reflexivity).
  assert (Hc : canon (PyDict [(T "b", PyInt 2); (T "a", PyInt 1)])
               = canon (PyDict [(T "a", PyInt 1); (T "b", PyInt 2)]))
    by (vm_compute; reflexivity).
  do 5 (split; [assumption|]).
  exact (X10_member_order_is_not_served plain_engines here0 false Serial
           (results_with members_b_a) (results_with members_a_b) _ _ _ _ H1 H2 L1 L2 Hc).
Defined.

Lemma X11_served_body_is_served_again_witness :
  files (results_with timing_example)
    !! metrics_path (start plain_engines here0 true) Serial = Some (File timing_example)
  /\ Forall (fun c => scalar_value c = true) timing_example
  /\ loads timing_example = Return timing_value
  /\ reprs timing_value = true
  /\ (nesting timing_value <= 100)%N
  /\ fst (serve (start plain_engines here0 true) (get (route Serial))
            (produce (metrics_path (start plain_engines here0 true) Serial)
               (Some (File (data (fst (serve (start plain_engines here0 true)
                                         (get (route Serial))
                                         (results_with timing_example))))))
               (results_with timing_example)))
     = fst (serve (start plain_engines here0 true) (get (route Serial))
              (results_with timing_example)).
Proof.
  assert (H1 : files (results_with timing_example)
                 !! metrics_path (start plain_engines here0 true) Serial
               = Some (File timing_example)) by (vm_compute; reflexivity).
  assert (H2 : Forall (fun c => scalar_value c = true) timing_example).
  { apply Forall_forall. intros c Hc. vm_compute in Hc.
    repeat (apply elem_of_cons in Hc as [->|Hc]; [reflexivity|]).
    by apply elem_of_nil in Hc. }
  assert (H3 : loads timing_example = Return timing_value) by (vm_compute; reflexivity).
  assert (H4 : reprs timing_value = true) by (vm_compute; reflexivity).
  assert (H5 : (nesting timing_value <= 100)%N) by (vm_compute; discriminate).
  do 5 (split; [assumption|]).
  exact (X11_served_body_is_served_again plain_engines here0 true Serial
           (results_with timing_example) _ _ H1 H2 H3 H4 H5).
Defined.

Lemma X12_json_body_is_ascii_witness :
  (forall s, files (results_with accented_example)
               !! metrics_path (start plain_engines here0 false) Serial = Some (File s) ->
             Forall (fun c => scalar_value c = true) s)
  /\ status (fst (serve (start plain_engines here0 false) (get (route Serial))
                    (results_with accented_example))) = 200%N
  /\ ascii_only (data (fst (serve (start plain_engines here0 false) (get (route Serial))
                              (results_with accented_example)))).
Proof.
  assert (Hs : forall s, files (results_with accented_example)
               !! metrics_path (start plain_engines here0 false) Serial = Some (File s) ->
             Forall (fun c => scalar_value c = true) s).
  { intros s H. vm_compute in H. injection H as <-.
    apply Forall_forall. intros c Hc.
    repeat (apply elem_of_cons in Hc as [->|Hc]; [reflexivity|]).
    by apply elem_of_nil in Hc. }
  split; [exact Hs|]. split; [reflexivity|].
  exact (X12_json_body_is_ascii plain_engines here0 false Serial
           (results_with accented_example) Hs eq_refl).
Defined.

(** ** Further properties: what a client cannot see *)

(** X15.  A client cannot tell a missing metrics file from a file that
    holds an empty object: the two are answered with the same response. *)
Theorem X15_empty_object_file_is_like_none eng here as_main m w w' s :
  let g := start eng here as_main in
  files w !! metrics_path g m = None ->
  files w' !! metrics_path g m = Some (File s) ->
  loads s = Return (PyDict []) ->
  fst (serve g (get (route m)) w) = fst (serve g (get (route m)) w').
Proof.
  intros g H1 H2 Hl. unfold metrics_path in H1, H2.
  rewrite !serve_metric, !load_json_outcome. cbn [fst].
  rewrite H1, H2. cbn [load_outcome fst]. by rewrite Hl.
Qed.

Lemma X15_empty_object_file_is_like_none_witness :
  files no_results !! metrics_path (start plain_engines here0 true) Serial = None
  /\ files (results_with (T " { } ")) !! metrics_path (start plain_engines here0 true) Serial
     = Some (File (T " { } "))
  /\ loads (T " { } ") = Return (PyDict [])
  /\ fst (serve (start plain_engines here0 true) (get (route Serial)) no_results)
     = fst (serve (start plain_engines here0 true) (get (route Serial))
              (results_with (T " { } "))).
Proof.
  assert (H1 : files no_results !! metrics_path (start plain_engines here0 true) Serial
               = None) by (vm_compute; reflexivity).
  assert (H2 : files (results_with (T " { } "))
                 !! metrics_path (start plain_engines here0 true) Serial
               = Some (File (T " { } "))) by (vm_compute; reflexivity).
  assert (H3 : loads (T " { } ") = Return (PyDict [])) by (vm_compute; reflexivity).
  do 3 (split; [assumption|]).
  exact (X15_empty_object_file_is_like_none plain_engines here0 true Serial
           no_results (results_with (T " { } ")) _ H1 H2 H3).
Defined.
